(** * etnz/notebook: a shallow embedding of [notebook.go]

    The package keeps an in-memory document (ordered cells, keyed header
    fragments, a console buffer) and renders it through an [html/template]
    template.  Go strings are byte sequences; they are modelled by Rocq's
    [string], whose characters are 8-bit [ascii] values. *)

From Stdlib Require Import Strings.String Strings.Ascii NArith.
From stdpp Require Import base option list gmap strings sorting.

Set Warnings "-register-all".
Set Default Proof Using "Type".

(** ** Bytes that cannot be written inside a Rocq string literal *)

Definition dq : string := String "034" EmptyString.   (* the double quote *)
Definition nl : string := String "010" EmptyString.   (* line feed *)
Definition tab : string := String "009" EmptyString.  (* horizontal tab *)

(** [cat] joins the pieces of a Go string literal. *)
Definition cat (pieces : list string) : string :=
  foldr String.append EmptyString pieces.

(** * Models of the Go standard library used by the package *)
Module Go.

(** ** [error] values

    [sysError] stands for an error produced by the operating system or by
    an [io.Writer]; [ExecError] for [text/template]'s evaluation errors;
    [errorString] for [fmt.Errorf] without a [%w] verb (the operand is only
    formatted into the message); [wrapError] for [fmt.Errorf] with a [%w]
    operand. *)
Inductive error :=
| sysError (msg : string)
| ExecError (msg : string)
| errorString (format : string) (operand : string)
| wrapError (format : string) (err : error).

(** [errors.Unwrap]: only a [*fmt.wrapError] has an [Unwrap] method. *)
Definition Unwrap (e : error) : option error :=
  match e with
  | wrapError _ err => Some err
  | _ => None
  end.

(** ** [io.Writer]: one [Write] call, giving the sink's next state and the
    error of the call ([None] is Go's [nil]).  The byte count that [Write]
    also returns is ignored by every caller in this package. *)
Class Writer (W : Type) := Write : W → string → W * option error.

(** ** [bytes.Buffer], abstracted to its unread bytes.  Nothing in the
    package reads from a buffer, so the read offset stays 0. *)
Definition Buffer := string.
Definition Buffer_zero : Buffer := EmptyString.
Definition Buffer_String (b : Buffer) : string := b.
Definition Buffer_Write (b : Buffer) (p : string)
  : Buffer * (nat * option error) :=
  (b +:+ p, (String.length p, None)).
Definition Buffer_WriteString := Buffer_Write.

#[export] Instance Buffer_Writer : Writer Buffer :=
  fun b p => (fst (Buffer_Write b p), snd (snd (Buffer_Write b p))).

(** ** [slices.Sort] on a [[]string]: ascending order of Go's [<] on strings,
    which compares byte by byte ([String.le] is [String.leb], built on
    [String.compare]). *)
Definition slices_Sort (x : list string) : list string :=
  merge_sort String.le x.

(** ** [path.Base] *)
Fixpoint stripSlashes (rev_path : list ascii) : list ascii :=
  match rev_path with
  | c :: rest => if Ascii.eqb c "/" then stripSlashes rest else rev_path
  | [] => []
  end.

Fixpoint untilSlash (rev_path : list ascii) : list ascii :=
  match rev_path with
  | c :: rest => if Ascii.eqb c "/" then [] else c :: untilSlash rest
  | [] => []
  end.

Definition path_Base (path : string) : string :=
  match path with
  | EmptyString => "."
  | _ =>
      let stripped := stripSlashes (reverse (list_ascii_of_string path)) in
      match reverse (untilSlash stripped) with
      | [] => "/"
      | last => string_of_list_ascii last
      end
  end.

(** ** [strings.Title] on ASCII input: the first letter of every word is
    upper-cased, a word starting after any byte that is not an ASCII
    letter, digit or underscore.  (On other input Go consults the Unicode
    tables; [New] below therefore takes the function as a parameter.) *)
Definition isSeparator (r : ascii) : bool :=
  let n := N_of_ascii r in
  negb ((48 <=? n) && (n <=? 57) || (97 <=? n) && (n <=? 122)
        || (65 <=? n) && (n <=? 90) || (n =? 95))%N.

Definition toTitle (r : ascii) : ascii :=
  let n := N_of_ascii r in
  if ((97 <=? n) && (n <=? 122))%N then ascii_of_N (n - 32) else r.

Fixpoint Title_from (prev : ascii) (s : string) : string :=
  match s with
  | EmptyString => EmptyString
  | String r rest =>
      String (if isSeparator prev then toTitle r else r) (Title_from r rest)
  end.

Definition ascii_Title (s : string) : string := Title_from " " s.

End Go.
Export Go.

(** * [html/template]: contextual escapers *)
Module HTMLTemplate.

(** U+FFFD in UTF-8. *)
Definition uFFFD : string :=
  String "239" (String "191" (String "189" EmptyString)).

(** [htmlReplacementTable]: the table has 63 entries (the largest index is
    the rune of the greater-than sign); an empty entry means that the rune
    is kept. *)
Definition htmlReplacementTable (r : ascii) : string :=
  match N_of_ascii r with
  | 0%N => uFFFD
  | 34%N => "&#34;"
  | 38%N => "&amp;"
  | 39%N => "&#39;"
  | 43%N => "&#43;"
  | 60%N => "&lt;"
  | 62%N => "&gt;"
  | _ => EmptyString
  end.

(** [htmlNormReplacementTable]: the same without the ampersand. *)
Definition htmlNormReplacementTable (r : ascii) : string :=
  match N_of_ascii r with
  | 0%N => uFFFD
  | 34%N => "&#34;"
  | 39%N => "&#39;"
  | 43%N => "&#43;"
  | 60%N => "&lt;"
  | 62%N => "&gt;"
  | _ => EmptyString
  end.

(** [htmlReplacer s table true].  Go walks the string rune by rune and
    replaces a rune whose table entry is not empty; every other rune is
    copied with its original bytes.  A byte of 0x80 or more belongs to a
    rune outside the table (a multi-byte rune, or [utf8.RuneError] for an
    invalid byte), so the walk is the same byte by byte. *)
Fixpoint htmlReplacer (s : string) (replacementTable : ascii → string)
  : string :=
  match s with
  | EmptyString => EmptyString
  | String r rest =>
      match replacementTable r with
      | EmptyString => String r (htmlReplacer rest replacementTable)
      | repl => repl +:+ htmlReplacer rest replacementTable
      end
  end.

Inductive contentType := contentTypePlain | contentTypeHTML.

(** [_html_template_htmlescaper] *)
Definition htmlEscaper (s : string) (t : contentType) : string :=
  match t with
  | contentTypeHTML => s
  | contentTypePlain => htmlReplacer s htmlReplacementTable
  end.

(** [_html_template_rcdataescaper] *)
Definition rcdataEscaper (s : string) (t : contentType) : string :=
  match t with
  | contentTypeHTML => htmlReplacer s htmlNormReplacementTable
  | contentTypePlain => htmlReplacer s htmlReplacementTable
  end.

End HTMLTemplate.
Export HTMLTemplate.

(** * The document model *)

(** [template.HTML]: a string that the escapers trust. *)
Definition HTML := string.

Definition HeaderCellStyle : string := "cell-style".

(** The default stylesheet, constant [cellStyle]. *)
Definition cellStyle : string := cat
  [ "<style>"; nl;
    tab; ".cell-container {"; nl;
    tab; tab; "display: flex;"; nl;
    tab; tab; "flex-direction: column;"; nl;
    tab; "}"; nl;
    tab; "details.cell {"; nl;
    tab; tab; "border: 1px solid #aaa;"; nl;
    tab; tab; "border-radius: 4px;"; nl;
    tab; tab; "padding: 0.5em 0.5em 0;"; nl;
    tab; tab; "display: block;"; nl;
    tab; "}"; nl;
    tab; "details.cell > summary {"; nl;
    tab; tab; "font-weight: bold;"; nl;
    tab; tab; "margin: -0.5em -0.5em 0;"; nl;
    tab; tab; "padding: 0.5em;"; nl;
    tab; "}"; nl;
    tab; "details[open].cell {"; nl;
    tab; tab; "padding: 0.5em;"; nl;
    tab; "}"; nl;
    tab; "details[open].cell > summary {"; nl;
    tab; tab; "border-bottom: 1px solid #aaa;"; nl;
    tab; tab; "margin-bottom: 0.5em;"; nl;
    tab; "}"; nl;
    "</style>" ].

(** [type cell struct] *)
Record cell := mkCell {
  cell_content : Buffer;   (* plain html *)
  cell_Title : string      (* Cell Title *)
}.

Definition newCell : cell :=
  {| cell_content := Buffer_zero; cell_Title := EmptyString |}.

(** [func (c *cell) Content() template.HTML] *)
Definition Content (c : cell) : HTML := Buffer_String (cell_content c).

(** [type Notebook struct].  A Go map can be [nil]: [headers] is [None] for
    the nil map and [Some m] for an allocated one. *)
Record Notebook := mkNotebook {
  Title : string;
  Output : string;
  cells : list cell;
  headers : option (gmap string string);
  console : Buffer
}.

(** The zero value [Notebook{}]. *)
Definition zeroNotebook : Notebook :=
  {| Title := EmptyString; Output := EmptyString; cells := [];
     headers := None; console := Buffer_zero |}.

(** Assignments to the two exported fields. *)
Definition setTitle (t : string) (nb : Notebook) : Notebook :=
  {| Title := t; Output := Output nb; cells := cells nb;
     headers := headers nb; console := console nb |}.

Definition setOutput (o : string) (nb : Notebook) : Notebook :=
  {| Title := Title nb; Output := o; cells := cells nb;
     headers := headers nb; console := console nb |}.

(** [func New() *Notebook].  [os_Args0] is [os.Args[0]]; [strings_Title] is
    Go's [strings.Title]. *)
Definition New (strings_Title : string → string) (os_Args0 : string)
  : Notebook :=
  let name := path_Base os_Args0 in
  {| Output := name +:+ ".html";
     Title := strings_Title name;
     cells := [];
     headers := Some {[ HeaderCellStyle := cellStyle ]};
     console := Buffer_zero |}.

(** [func (nb *Notebook) AddContent(title string, content string)] *)
Definition AddContent (nb : Notebook) (title content : string) : Notebook :=
  let cell0 := newCell in
  let cell1 := {| cell_content := cell_content cell0; cell_Title := title |} in
  let cell2 := {| cell_content := fst (Buffer_WriteString (cell_content cell1) content);
                  cell_Title := cell_Title cell1 |} in
  {| Title := Title nb; Output := Output nb;
     cells := cells nb ++ [cell2];
     headers := headers nb; console := console nb |}.

(** Go's map assignment [m[k] = v]: a run-time panic on a nil map. *)
Inductive outcome (A : Type) :=
| Returns (a : A)
| Panics (msg : string).
Arguments Returns {A} a.
Arguments Panics {A} msg.

Definition mapassign (m : option (gmap string string)) (k v : string)
  : outcome (option (gmap string string)) :=
  match m with
  | None => Panics "assignment to entry in nil map"
  | Some m' => Returns (Some (<[k := v]> m'))
  end.

(** Go's map read [m[k]]: the zero value when the key is absent or the map
    is nil. *)
Definition mapaccess (m : option (gmap string string)) (k : string) : string :=
  match m with
  | None => EmptyString
  | Some m' => default EmptyString (m' !! k)
  end.

(** [func (nb *Notebook) AddHeader(id string, content string)] *)
Definition AddHeader (nb : Notebook) (id content : string) : outcome Notebook :=
  let headers1 :=
    match headers nb with
    | None => Some ∅            (* make(map[string]string) *)
    | Some m => Some m
    end in
  match mapassign headers1 id content with
  | Panics msg => Panics msg
  | Returns headers2 =>
      Returns {| Title := Title nb; Output := Output nb; cells := cells nb;
                 headers := headers2; console := console nb |}
  end.

(** ** Console operations.  [fmt]'s formatting of the operands is Go's; the
    section takes the three formatters as parameters. *)
Section Console.
Context {any : Type}.
Variable fmt_Sprint : list any → string.
Variable fmt_Sprintf : string → list any → string.
Variable fmt_Sprintln : list any → string.

(** [fmt.Fprint(&nb.console, ...)] formats, then makes one [Write]. *)
Definition writeConsole (nb : Notebook) (text : string)
  : Notebook * (nat * option error) :=
  let '(b, r) := Buffer_Write (console nb) text in
  ({| Title := Title nb; Output := Output nb; cells := cells nb;
      headers := headers nb; console := b |}, r).

Definition Print (nb : Notebook) (a : list any) :=
  writeConsole nb (fmt_Sprint a).
Definition Printf (nb : Notebook) (format : string) (a : list any) :=
  writeConsole nb (fmt_Sprintf format a).
Definition Println (nb : Notebook) (a : list any) :=
  writeConsole nb (fmt_Sprintln a).
End Console.

(** ** The view handed to the template: [type nbView struct{ *Notebook }] *)

(** The keys of the header map, in one iteration order. *)
Definition headerKeys (nb : Notebook) : list string :=
  match headers nb with
  | None => []
  | Some m => (map_to_list m).*1
  end.

(** [func (nbv nbView) Headers() []template.HTML].  Go iterates over a map in
    an unspecified order that may change from one call to the next: [keys] is
    the sequence that [maps.Keys(nbv.headers)] yields in this call, some
    permutation of [headerKeys]. *)
Definition Headers (keys : list string) (nbv : Notebook) : list HTML :=
  let keys1 := slices_Sort keys in
  foldl (fun result k => result ++ [mapaccess (headers nbv) k]) [] keys1.

Definition Cells (nbv : Notebook) : list cell := cells nbv.
Definition Console (nbv : Notebook) : string := Buffer_String (console nbv).

(** * [html/template]: the parsed template and its execution *)

(** The values that execution passes around (Go reaches them by reflection). *)
Inductive value :=
| VString (s : string)          (* string *)
| VHTML (s : HTML)              (* template.HTML *)
| VCell (c : cell)              (* *cell *)
| VSlice (elems : list value)   (* []template.HTML, []*cell *)
| VView (nb : Notebook).        (* nbView *)

(** The operand of a pipeline: [{{.}}] or [{{.Name}}]. *)
Inductive Arg := Dot | Field (name : string).

(** The escaper that [html/template] appends to an action's pipeline, chosen
    from the HTML context in which the action stands. *)
Inductive Escaper := html_escaper | rcdata_escaper.

(** Parse tree ([text/template/parse]): text, [{{pipeline}}], [{{with}}] and
    [{{range}}] (neither has an [{{else}}] in this package). *)
Inductive Node :=
| TextNode (Text : string)
| ActionNode (Pipe : Arg) (esc : Escaper)
| WithNode (Pipe : Arg) (List : list Node)
| RangeNode (Pipe : Arg) (List : list Node).

Section Exec.
Context {W : Type} `{Writer W}.

(** [keys] is the order in which the header map is iterated during this
    execution (see [Headers]). *)
Variable keys : list string.

(** Field or niladic method [name] of [receiver]; only exported names are
    visible to a template.  [None] is [text/template]'s "can't evaluate
    field" error. *)
Definition evalField (name : string) (receiver : value) : option value :=
  match receiver with
  | VView nb =>
      if String.eqb name "Title" then Some (VString (Title nb))
      else if String.eqb name "Output" then Some (VString (Output nb))
      else if String.eqb name "Headers" then Some (VSlice (VHTML <$> Headers keys nb))
      else if String.eqb name "Cells" then Some (VSlice (VCell <$> Cells nb))
      else if String.eqb name "Console" then Some (VString (Console nb))
      else None
  | VCell c =>
      if String.eqb name "Title" then Some (VString (cell_Title c))
      else if String.eqb name "Content" then Some (VHTML (Content c))
      else None
  | _ => None
  end.

Definition evalArg (dot : value) (a : Arg) : option value :=
  match a with
  | Dot => Some dot
  | Field name => evalField name dot
  end.

(** [text/template.IsTrue] *)
Definition isTrue (v : value) : bool :=
  match v with
  | VString s | VHTML s => negb (String.eqb s EmptyString)
  | VSlice elems => negb (bool_decide (elems = []))
  | VCell _ | VView _ => true
  end.

(** [html/template]'s [stringify] on one argument.  A value of another
    kind would go through [fmt.Sprint], which is not modelled: the
    template of this package never prints one. *)
Definition stringify (v : value) : option (string * contentType) :=
  match v with
  | VString s => Some (s, contentTypePlain)
  | VHTML s => Some (s, contentTypeHTML)
  | _ => None
  end.

Definition escape (esc : Escaper) (v : value) : option string :=
  match stringify v with
  | None => None
  | Some (s, t) =>
      Some match esc with
           | html_escaper => htmlEscaper s t
           | rcdata_escaper => rcdataEscaper s t
           end
  end.

(** Sequencing of two steps on the sink: the second runs only if the first
    returned no error. *)
Definition andThen (r : W * option error) (k : W → W * option error)
  : W * option error :=
  match r with
  | (w, None) => k w
  | (w, Some e) => (w, Some e)
  end.

(** [state.walk]: every text node and every action makes one [Write]; the
    first error (of the sink or of the evaluation) stops the execution. *)
Fixpoint walk (dot : value) (node : Node) (w : W) {struct node}
  : W * option error :=
  let walkList :=
    fix walkList (dot : value) (nodes : list Node) (w : W) {struct nodes} :=
      match nodes with
      | [] => (w, None)
      | n :: rest => andThen (walk dot n w) (walkList dot rest)
      end in
  match node with
  | TextNode text => Write w text
  | ActionNode pipe esc =>
      match evalArg dot pipe with
      | None => (w, Some (ExecError "can't evaluate field"))
      | Some v =>
          match escape esc v with
          | None => (w, Some (ExecError "unsupported value"))
          | Some s => Write w s
          end
      end
  | WithNode pipe body =>
      match evalArg dot pipe with
      | None => (w, Some (ExecError "can't evaluate field"))
      | Some v => if isTrue v then walkList v body w else (w, None)
      end
  | RangeNode pipe body =>
      match evalArg dot pipe with
      | None => (w, Some (ExecError "can't evaluate field"))
      | Some (VSlice elems) =>
          (fix oneIteration (elems : list value) (w : W) {struct elems} :=
             match elems with
             | [] => (w, None)
             | elem :: rest =>
                 andThen (walkList elem body w) (oneIteration rest)
             end) elems w
      | Some _ => (w, Some (ExecError "range can't iterate over value"))
      end
  end.

Fixpoint walkList (dot : value) (nodes : list Node) (w : W)
  : W * option error :=
  match nodes with
  | [] => (w, None)
  | n :: rest => andThen (walk dot n w) (walkList dot rest)
  end.

Fixpoint walkRange (elems : list value) (body : list Node) (w : W)
  : W * option error :=
  match elems with
  | [] => (w, None)
  | elem :: rest => andThen (walkList elem body w) (walkRange rest body)
  end.

(** [Template.Execute(w, data)] *)
Definition Execute (root : list Node) (w : W) (data : value)
  : W * option error :=
  walkList data root w.

End Exec.

(** [nbTemplate], as parsed: [{{-] and [-}}] have trimmed the white space
    next to them, and the text between [{{end -}}] and [{{- range .Headers}}]
    has vanished.  The action inside the [title] element stands in RCDATA
    context, every other action in text context. *)
Definition nbTemplate : list Node :=
  [ TextNode (cat ["<!DOCTYPE html>"; nl; "<html>"; nl; tab; "<head>"]);
    WithNode (Field "Title")
      [ TextNode "<title>"; ActionNode Dot rcdata_escaper; TextNode "</title>" ];
    RangeNode (Field "Headers") [ ActionNode Dot html_escaper ];
    TextNode (cat ["</head>"; nl; tab; "<body>"; nl; tab; tab]);
    WithNode (Field "Title")
      [ TextNode "<h1>"; ActionNode Dot html_escaper; TextNode "</h1>" ];
    TextNode (cat [nl; tab; tab; "<div class="; dq; "cell-container"; dq; ">"]);
    RangeNode (Field "Cells")
      [ TextNode (cat [nl; tab; tab; tab; "<details open class="; dq; "cell"; dq; ">";
                       nl; tab; tab; tab; tab; "<summary>"]);
        ActionNode (Field "Title") html_escaper;
        TextNode (cat ["</summary>"; nl; tab; tab; tab; tab]);
        ActionNode (Field "Content") html_escaper;
        TextNode (cat [nl; tab; tab; tab; "</details>"]) ];
    TextNode (cat [nl; tab; tab; tab; "<details open class="; dq; "cell"; dq; ">";
                   nl; tab; tab; tab; tab; "<summary>Console</summary>";
                   nl; tab; tab; tab; tab; "<pre>"]);
    ActionNode (Field "Console") html_escaper;
    TextNode (cat ["</pre>"; nl; tab; tab; tab; "</details>";
                   nl; tab; tab; "</div>"; nl; tab; "</body>"; nl; "</html>"]) ].

(** [func (nb *Notebook) Render(w io.Writer) error].  [keys] is the order of
    the map iteration during this call (see [Headers]).  None of the methods
    that the template calls assigns to the notebook, so the receiver is
    returned as it was found, next to the sink and the error. *)
Definition Render {W : Type} `{Writer W} (keys : list string)
    (nb : Notebook) (w : W) : Notebook * (W * option error) :=
  (nb, Execute keys nbTemplate w (VView nb)).

(** [func (nb *Notebook) Close() error].  [os_Create] is the outcome of
    [os.Create] on a path, [File_Close] that of [File.Close]; the
    deferred call runs after the result is set and its error is dropped.
    The result carries the file as it was left, if one was created. *)
Section Close.
Context {F : Type} `{Writer F}.
Variable os_Create : string → F + error.
Variable File_Close : F → F * option error.

Definition Close (keys : list string) (nb : Notebook)
  : Notebook * (option F * option error) :=
  match os_Create (Output nb) with
  | inr err =>
      (nb, (None, Some (errorString "cannot create output file %q" (Output nb))))
  | inl f =>
      let '(nb1, (f1, rerr)) := Render keys nb f in
      let result :=
        match rerr with
        | Some err => Some (wrapError "cannot render notebook: %w" err)
        | None => None
        end in
      (nb1, (Some (fst (File_Close f1)), result))
  end.
End Close.

(** * What [Render] writes: the sequence of chunks

    The closed form of the document, chunk by chunk; [Execute_nbTemplate]
    below proves that the execution of [nbTemplate] writes these chunks, in
    this order, one [Write] each. *)

(** The bytes of the template's text nodes. *)
Definition textHead : string :=
  cat ["<!DOCTYPE html>"; nl; "<html>"; nl; tab; "<head>"].
Definition textBody : string :=
  cat ["</head>"; nl; tab; "<body>"; nl; tab; tab].
Definition textContainer : string :=
  cat [nl; tab; tab; "<div class="; dq; "cell-container"; dq; ">"].
Definition textCellOpen : string :=
  cat [nl; tab; tab; tab; "<details open class="; dq; "cell"; dq; ">";
       nl; tab; tab; tab; tab; "<summary>"].
Definition textCellMiddle : string :=
  cat ["</summary>"; nl; tab; tab; tab; tab].
Definition textCellClose : string :=
  cat [nl; tab; tab; tab; "</details>"].
Definition textConsoleOpen : string :=
  cat [nl; tab; tab; tab; "<details open class="; dq; "cell"; dq; ">";
       nl; tab; tab; tab; tab; "<summary>Console</summary>";
       nl; tab; tab; tab; tab; "<pre>"].
Definition textTail : string :=
  cat ["</pre>"; nl; tab; tab; tab; "</details>";
       nl; tab; tab; "</div>"; nl; tab; "</body>"; nl; "</html>"].

(** Escaping of plain text, in text and in RCDATA context alike. *)
Definition escapeText (s : string) : string :=
  htmlReplacer s htmlReplacementTable.

(** The [title] element and the [h1] heading: nothing for an empty title. *)
Definition titleChunks (t : string) : list string :=
  if String.eqb t EmptyString then []
  else ["<title>"; escapeText t; "</title>"].

Definition headingChunks (t : string) : list string :=
  if String.eqb t EmptyString then []
  else ["<h1>"; escapeText t; "</h1>"].

(** The header fragments: the values of the map, by ascending key. *)
Definition headChunks (keys : list string) (nb : Notebook) : list string :=
  mapaccess (headers nb) <$> slices_Sort keys.

(** One cell block. *)
Definition cellChunks (c : cell) : list string :=
  [ textCellOpen; escapeText (cell_Title c); textCellMiddle;
    cell_content c; textCellClose ].

(** The trailing Console block, up to the end of the document. *)
Definition consoleChunks (text : string) : list string :=
  [ textConsoleOpen; escapeText text; textTail ].

(** From the end of the head to the end of the document. *)
Definition bodyChunks (nb : Notebook) : list string :=
  [textBody] ++ headingChunks (Title nb) ++ [textContainer]
  ++ (cells nb ≫= cellChunks) ++ consoleChunks (console nb).

Definition renderChunks (keys : list string) (nb : Notebook) : list string :=
  [textHead] ++ titleChunks (Title nb) ++ headChunks keys nb ++ bodyChunks nb.

Section Writes.
Context {W : Type} `{Writer W}.

(** The chunks are written one by one until the sink refuses one. *)
Fixpoint writeAll (chunks : list string) (w : W) : W * option error :=
  match chunks with
  | [] => (w, None)
  | c :: rest => andThen (Write w c) (writeAll rest)
  end.

(** Does the sink, fed the chunks in turn, accept them all? *)
Fixpoint acceptsAll (chunks : list string) (w : W) : bool :=
  match chunks with
  | [] => true
  | c :: rest =>
      match Write w c with
      | (w', None) => acceptsAll rest w'
      | (_, Some _) => false
      end
  end.
End Writes.

(** * Definitions used by the statements *)

(** The document obtained by rendering into an empty buffer. *)
Definition rendered (keys : list string) (nb : Notebook) : string :=
  Buffer_String (fst (snd (Render keys nb Buffer_zero))).

(** A run of [AddContent] calls, each given as (title, content). *)
Definition AddContents (nb : Notebook) (calls : list (string * string))
  : Notebook :=
  foldl (fun nb call => AddContent nb call.1 call.2) nb calls.

(** The cell block that one call of [AddContent] adds to the document. *)
Definition callBlock (call : string * string) : list string :=
  [ textCellOpen; escapeText call.1; textCellMiddle; call.2; textCellClose ].

(** The document up to the first cell block. *)
Definition documentStart (keys : list string) (nb : Notebook) : list string :=
  [textHead] ++ titleChunks (Title nb) ++ headChunks keys nb
  ++ [textBody] ++ headingChunks (Title nb) ++ [textContainer].

Definition cellOfCall (call : string * string) : cell :=
  {| cell_content := call.2; cell_Title := call.1 |}.

(** A run of [AddHeader] calls, stopping at the first panic. *)
Fixpoint AddHeaders (nb : Notebook) (calls : list (string * string))
  : outcome Notebook :=
  match calls with
  | [] => Returns nb
  | (id, content) :: rest =>
      match AddHeader nb id content with
      | Returns nb' => AddHeaders nb' rest
      | Panics msg => Panics msg
      end
  end.

Definition insertAll (m : gmap string string) (calls : list (string * string))
  : gmap string string :=
  foldl (fun m call => <[call.1 := call.2]> m) m calls.

(** Go's [a < b] on strings. *)
Definition lexLess (a b : string) : Prop := String.ltb a b = true.

(** The bytes that open markup or end an attribute value, and NUL. *)
Definition isMarkup (c : ascii) : bool :=
  match N_of_ascii c with
  | 0%N | 34%N | 39%N | 60%N | 62%N => true
  | _ => false
  end.

Fixpoint noMarkup (s : string) : bool :=
  match s with
  | EmptyString => true
  | String c rest => negb (isMarkup c) && noMarkup rest
  end.

(** A sink with room for a number of bytes; a write that does not fit is
    refused. *)
Record boundedSink := { room : nat; taken : string }.

#[export] Instance boundedSink_Writer : Writer boundedSink :=
  fun w p =>
    if decide (String.length p ≤ room w)
    then ({| room := room w - String.length p; taken := taken w +:+ p |}, None)
    else (w, Some (sysError "no space left on device")).

(** A notebook used to instantiate the statements below. *)
Definition demo : Notebook :=
  {| Title := "T<1>";
     Output := "out.html";
     cells := [ {| cell_content := "<p>x & y</p>"; cell_Title := "a<b" |} ];
     headers := Some (<["b-style" := "<b/>"]> {["a-meta" := "<a/>"]});
     console := "1 < 2" |}.

(** ** Runs of operations *)

(** One call of a console operation, with its operands. *)
Inductive consoleCall (any : Type) :=
| CallPrint (a : list any)
| CallPrintf (format : string) (a : list any)
| CallPrintln (a : list any).
Arguments CallPrint {any} a.
Arguments CallPrintf {any} format a.
Arguments CallPrintln {any} a.

Section ConsoleRuns.
Context {any : Type}.
Variable fmt_Sprint : list any → string.
Variable fmt_Sprintf : string → list any → string.
Variable fmt_Sprintln : list any → string.

(** The text that [fmt] produces for the call. *)
Definition formatted (c : consoleCall any) : string :=
  match c with
  | CallPrint a => fmt_Sprint a
  | CallPrintf format a => fmt_Sprintf format a
  | CallPrintln a => fmt_Sprintln a
  end.

Definition consoleStep (nb : Notebook) (c : consoleCall any)
  : Notebook * (nat * option error) :=
  match c with
  | CallPrint a => Print fmt_Sprint nb a
  | CallPrintf format a => Printf fmt_Sprintf nb format a
  | CallPrintln a => Println fmt_Sprintln nb a
  end.

Definition consoleRun (nb : Notebook) (calls : list (consoleCall any))
  : Notebook :=
  foldl (fun nb c => fst (consoleStep nb c)) nb calls.
End ConsoleRuns.

(** A mutating call of any kind; [DoWrite] is a console operation given by
    the text that it formats. *)
Inductive mutation :=
| DoAddContent (title content : string)
| DoAddHeader (id content : string)
| DoWrite (text : string).

Definition mutate (nb : Notebook) (m : mutation) : outcome Notebook :=
  match m with
  | DoAddContent title content => Returns (AddContent nb title content)
  | DoAddHeader id content => AddHeader nb id content
  | DoWrite text => Returns (fst (writeConsole nb text))
  end.

Fixpoint mutateAll (nb : Notebook) (ms : list mutation) : outcome Notebook :=
  match ms with
  | [] => Returns nb
  | m :: rest =>
      match mutate nb m with
      | Returns nb' => mutateAll nb' rest
      | Panics msg => Panics msg
      end
  end.

(** The calls of each kind within a run, in their order. *)
Fixpoint contentCalls (ms : list mutation) : list (string * string) :=
  match ms with
  | [] => []
  | DoAddContent title content :: rest => (title, content) :: contentCalls rest
  | _ :: rest => contentCalls rest
  end.

Fixpoint headerCalls (ms : list mutation) : list (string * string) :=
  match ms with
  | [] => []
  | DoAddHeader id content :: rest => (id, content) :: headerCalls rest
  | _ :: rest => headerCalls rest
  end.

Fixpoint consoleTexts (ms : list mutation) : list string :=
  match ms with
  | [] => []
  | DoWrite text :: rest => text :: consoleTexts rest
  | _ :: rest => consoleTexts rest
  end.

(** The content of the last call for [id] in a run of [AddHeader] calls. *)
Fixpoint lastWrite (id : string) (calls : list (string * string))
  : option string :=
  match calls with
  | [] => None
  | (k, v) :: rest =>
      match lastWrite id rest with
      | Some v' => Some v'
      | None => if String.eqb k id then Some v else None
      end
  end.

(** Text without any byte that the escaper replaces. *)
Fixpoint plainText (s : string) : bool :=
  match s with
  | EmptyString => true
  | String c rest =>
      match htmlReplacementTable c with
      | EmptyString => plainText rest
      | _ => false
      end
  end.


(** * The standard library models on small inputs *)

Example path_Base_examples :
  path_Base "/usr/local/bin/sim" = "sim"
  ∧ path_Base "a/b//" = "b"
  ∧ path_Base "notebook.test" = "notebook.test"
  ∧ path_Base "///" = "/"
  ∧ path_Base EmptyString = ".".
Proof. repeat split; reflexivity. Qed.

Example ascii_Title_examples :
  ascii_Title "notebook.test" = "Notebook.Test"
  ∧ ascii_Title "my_sim run2" = "My_sim Run2".
Proof. split; reflexivity. Qed.

Example slices_Sort_example :
  slices_Sort ["cell-style"; "b"; "Z"; "cell"; "a"]
  = ["Z"; "a"; "b"; "cell"; "cell-style"].
Proof. by vm_compute. Qed.

Example htmlReplacer_example :
  htmlReplacer "a<b & c" htmlReplacementTable = "a&lt;b &amp; c"
  ∧ htmlReplacer "a<b & c" htmlNormReplacementTable = "a&lt;b & c".
Proof. split; reflexivity. Qed.

(** * Lemmas on the execution *)

Section ExecFacts.
Context {W : Type} `{Writer W}.
Implicit Types (w : W) (r : W * option error) (k : W → W * option error).

Lemma andThen_ret r : andThen r (fun w => (w, None)) = r.
Proof. by destruct r as [w [e|]]. Qed.

Lemma andThen_assoc r k1 k2 :
  andThen (andThen r k1) k2 = andThen r (fun w => andThen (k1 w) k2).
Proof. by destruct r as [w [e|]]. Qed.

Lemma andThen_ext r k1 k2 :
  (∀ w, k1 w = k2 w) → andThen r k1 = andThen r k2.
Proof. intros Hk. destruct r as [w [e|]]; simpl; [done | apply Hk]. Qed.

Lemma writeAll_app (a b : list string) w :
  writeAll (a ++ b) w = andThen (writeAll a w) (writeAll b).
Proof.
  revert w. induction a as [|c a IH]; intros w; simpl; [done|].
  rewrite andThen_assoc. by apply andThen_ext.
Qed.

Lemma writeAll_one (c : string) w : writeAll [c] w = Write w c.
Proof. simpl. apply andThen_ret. Qed.

Lemma walk_text keys dot text w :
  walk keys dot (TextNode text) w = Write w text.
Proof. reflexivity. Qed.

Lemma walk_with keys dot pipe body w :
  walk keys dot (WithNode pipe body) w =
  match evalArg keys dot pipe with
  | None => (w, Some (ExecError "can't evaluate field"))
  | Some v => if isTrue v then walkList keys v body w else (w, None)
  end.
Proof. reflexivity. Qed.

Lemma walk_range keys dot pipe body w :
  walk keys dot (RangeNode pipe body) w =
  match evalArg keys dot pipe with
  | None => (w, Some (ExecError "can't evaluate field"))
  | Some (VSlice elems) => walkRange keys elems body w
  | Some _ => (w, Some (ExecError "range can't iterate over value"))
  end.
Proof.
  simpl. destruct (evalArg keys dot pipe) as [[| | |elems|]|]; try done.
  revert w. induction elems as [|elem elems IH]; intros w; simpl; [done|].
  by apply andThen_ext.
Qed.

(** A plain string in an action: one write of the escaped text. *)
Lemma walk_with_title keys (t : string) (open close : string) esc w :
  (if isTrue (VString t)
   then walkList keys (VString t)
          [TextNode open; ActionNode Dot esc; TextNode close] w
   else (w, None))
  = writeAll (if String.eqb t EmptyString then []
              else [open; escapeText t; close]) w.
Proof.
  simpl. destruct (String.eqb t EmptyString); simpl; [done|].
  destruct esc; reflexivity.
Qed.

Lemma walkRange_headers keys (hs : list HTML) w :
  walkRange keys (VHTML <$> hs) [ActionNode Dot html_escaper] w
  = writeAll hs w.
Proof.
  revert w. induction hs as [|h hs IH]; intros w; simpl; [done|].
  rewrite andThen_ret. apply andThen_ext, IH.
Qed.

Lemma walkRange_cells keys (cs : list cell) w :
  walkRange keys (VCell <$> cs)
    [ TextNode textCellOpen; ActionNode (Field "Title") html_escaper;
      TextNode textCellMiddle; ActionNode (Field "Content") html_escaper;
      TextNode textCellClose ] w
  = writeAll (cs ≫= cellChunks) w.
Proof.
  revert w. induction cs as [|c cs IH]; intros w; [done|].
  change ((c :: cs) ≫= cellChunks) with (cellChunks c ++ (cs ≫= cellChunks)).
  rewrite writeAll_app.
  etrans; [|apply andThen_ext, IH].
  reflexivity.
Qed.

Lemma andThen_cong r1 r2 k1 k2 :
  r1 = r2 → (∀ w, k1 w = k2 w) → andThen r1 k1 = andThen r2 k2.
Proof. intros ->. apply andThen_ext. Qed.

(** The loop of [Headers] builds the list of the values by sorted key. *)
Lemma foldl_append {A B} (f : A → B) (l : list A) (acc : list B) :
  foldl (fun result x => result ++ [f x]) acc l = acc ++ (f <$> l).
Proof.
  revert acc. induction l as [|x l IH]; intros acc; simpl.
  - by rewrite app_nil_r.
  - rewrite IH. by rewrite <- app_assoc.
Qed.

Lemma Headers_headChunks keys (nb : Notebook) :
  Headers keys nb = headChunks keys nb.
Proof. unfold Headers, headChunks. by rewrite foldl_append. Qed.

(** The execution of [nbTemplate] on a notebook writes [renderChunks]. *)
Lemma Execute_nbTemplate keys (nb : Notebook) w :
  Execute keys nbTemplate w (VView nb) = writeAll (renderChunks keys nb) w.
Proof.
  unfold Execute, nbTemplate, renderChunks, bodyChunks, consoleChunks.
  fold textHead textBody textContainer textCellOpen textCellMiddle
       textCellClose textConsoleOpen textTail.
  cbn [walkList].
  rewrite writeAll_app. apply andThen_cong; [by rewrite writeAll_one|intros w0].
  rewrite writeAll_app. apply andThen_cong; [|intros w1].
  { rewrite walk_with. apply walk_with_title. }
  rewrite writeAll_app. apply andThen_cong; [|intros w2].
  { rewrite walk_range. cbn [evalArg evalField String.eqb Ascii.eqb Bool.eqb].
    by rewrite walkRange_headers, Headers_headChunks. }
  rewrite writeAll_app. apply andThen_cong; [by rewrite writeAll_one|intros w3].
  rewrite writeAll_app. apply andThen_cong; [|intros w4].
  { rewrite walk_with. apply walk_with_title. }
  rewrite writeAll_app. apply andThen_cong; [by rewrite writeAll_one|intros w5].
  rewrite writeAll_app. apply andThen_cong; [|intros w6].
  { rewrite walk_range. cbn [evalArg evalField String.eqb Ascii.eqb Bool.eqb].
    apply walkRange_cells. }
  reflexivity.
Qed.

End ExecFacts.

(** * Sorting of the header ids *)

Lemma le_ne_lexLess (a b : string) : String.le a b → a ≠ b → lexLess a b.
Proof.
  unfold String.le, String.leb, lexLess, String.ltb. intros Hle Hne.
  destruct (String.compare a b) eqn:Hc; [|done|done].
  by apply String.compare_eq_iff in Hc.
Qed.

Lemma slices_Sort_perm (l : list string) : slices_Sort l ≡ₚ l.
Proof. apply merge_sort_Permutation. Qed.

Lemma slices_Sort_sorted (l : list string) :
  StronglySorted String.le (slices_Sort l).
Proof. apply StronglySorted_merge_sort; apply _. Qed.

(** The result of the sort does not depend on the order of its input. *)
Lemma slices_Sort_unique (l1 l2 : list string) :
  l1 ≡ₚ l2 → slices_Sort l1 = slices_Sort l2.
Proof.
  intros Hp. apply (Sorted_unique String.le).
  - apply Sorted_merge_sort, _.
  - apply Sorted_merge_sort, _.
  - by rewrite !slices_Sort_perm.
Qed.

Lemma StronglySorted_le_lexLess (l : list string) :
  NoDup l → StronglySorted String.le l → StronglySorted lexLess l.
Proof.
  induction 2 as [|a l Hs IH Hall]; [constructor|].
  apply NoDup_cons in H as [Hnotin Hnd]. constructor; [by apply IH|].
  rewrite Forall_forall in Hall |- *. intros b Hb.
  apply le_ne_lexLess; [by apply Hall|]. intros ->. by apply Hnotin.
Qed.

Lemma headerKeys_NoDup (nb : Notebook) : NoDup (headerKeys nb).
Proof.
  unfold headerKeys. destruct (headers nb) as [m|]; [|constructor].
  apply NoDup_fst_map_to_list.
Qed.

(** Distinct ids come out of the sort in strictly ascending order. *)
Lemma slices_Sort_ascending (keys : list string) :
  NoDup keys → StronglySorted lexLess (slices_Sort keys).
Proof.
  intros Hnd. apply StronglySorted_le_lexLess; [|apply slices_Sort_sorted].
  by rewrite slices_Sort_perm.
Qed.

Lemma headChunks_order_irrelevant (keys1 keys2 : list string) (nb : Notebook) :
  keys1 ≡ₚ keys2 → headChunks keys1 nb = headChunks keys2 nb.
Proof. intros Hp. unfold headChunks. by rewrite (slices_Sort_unique _ _ Hp). Qed.

Lemma renderChunks_order_irrelevant (keys1 keys2 : list string) (nb : Notebook) :
  keys1 ≡ₚ keys2 → renderChunks keys1 nb = renderChunks keys2 nb.
Proof.
  intros Hp. unfold renderChunks.
  by rewrite (headChunks_order_irrelevant _ _ _ Hp).
Qed.

(** * Rendering into a [bytes.Buffer] *)

Lemma append_cons (x : ascii) (a b : string) :
  String x a +:+ b = String x (a +:+ b).
Proof. reflexivity. Qed.

Lemma append_assoc (a b c : string) : (a +:+ b) +:+ c = a +:+ (b +:+ c).
Proof.
  induction a as [|x a IH]; [done|]. by rewrite !append_cons, IH.
Qed.

Lemma append_nil_r (a : string) : a +:+ EmptyString = a.
Proof. induction a as [|x a IH]; [done|]. by rewrite append_cons, IH. Qed.

Lemma cat_cons (x : string) (a : list string) : cat (x :: a) = x +:+ cat a.
Proof. reflexivity. Qed.

Lemma cat_app (a b : list string) : cat (a ++ b) = cat a +:+ cat b.
Proof.
  induction a as [|x a IH]; [done|].
  rewrite <- app_comm_cons, !cat_cons, IH. by rewrite append_assoc.
Qed.

Lemma writeAll_Buffer (chunks : list string) (b : Buffer) :
  writeAll chunks b = (b +:+ cat chunks, None).
Proof.
  revert b. induction chunks as [|c chunks IH]; intros b; simpl.
  - by rewrite append_nil_r.
  - unfold Write, Buffer_Writer. simpl. rewrite IH.
    by rewrite append_assoc.
Qed.

Lemma Render_writeAll {W : Type} `{Writer W} keys (nb : Notebook) (w : W) :
  Render keys nb w = (nb, writeAll (renderChunks keys nb) w).
Proof. unfold Render. by rewrite Execute_nbTemplate. Qed.

Lemma rendered_cat keys (nb : Notebook) :
  rendered keys nb = cat (renderChunks keys nb).
Proof.
  unfold rendered. rewrite Render_writeAll. simpl.
  by rewrite writeAll_Buffer.
Qed.

(** * Facts on the escaping of plain text *)

Lemma escapeText_app (a b : string) :
  escapeText (a +:+ b) = escapeText a +:+ escapeText b.
Proof.
  unfold escapeText. induction a as [|r a IH]; [done|].
  rewrite append_cons. simpl. rewrite IH.
  destruct (htmlReplacementTable r); [done|]. by rewrite append_assoc.
Qed.

Lemma noMarkup_app (a b : string) :
  noMarkup (a +:+ b) = noMarkup a && noMarkup b.
Proof.
  induction a as [|c a IH]; [done|].
  rewrite append_cons. simpl. by rewrite IH, andb_assoc.
Qed.

Lemma noMarkup_replacement (r : ascii) :
  match htmlReplacementTable r with
  | EmptyString => isMarkup r = false
  | repl => noMarkup repl = true
  end.
Proof.
  destruct r as [[] [] [] [] [] [] [] []]; reflexivity.
Qed.

(** Escaped text holds no byte that a browser reads as markup. *)
Lemma noMarkup_escapeText (s : string) : noMarkup (escapeText s) = true.
Proof.
  unfold escapeText. induction s as [|r s IH]; [done|]. simpl.
  pose proof (noMarkup_replacement r) as Hr.
  destruct (htmlReplacementTable r) as [|c repl].
  - simpl. by rewrite Hr, IH.
  - by rewrite noMarkup_app, Hr, IH.
Qed.

(** * Facts on the operations *)

Lemma AddHeader_returns (nb : Notebook) (id content : string) :
  AddHeader nb id content =
  Returns {| Title := Title nb; Output := Output nb; cells := cells nb;
             headers := Some (<[id := content]> (default ∅ (headers nb)));
             console := console nb |}.
Proof. unfold AddHeader. by destruct (headers nb). Qed.

Lemma AddHeaders_returns (nb : Notebook) (calls : list (string * string)) :
  AddHeaders nb calls =
  match calls with
  | [] => Returns nb
  | _ => Returns {| Title := Title nb; Output := Output nb; cells := cells nb;
                    headers := Some (insertAll (default ∅ (headers nb)) calls);
                    console := console nb |}
  end.
Proof.
  revert nb. induction calls as [|[id c] calls IH]; intros nb; [done|].
  simpl. rewrite AddHeader_returns, IH. by destruct calls.
Qed.

Lemma insertAll_perm (calls1 calls2 : list (string * string)) :
  calls1 ≡ₚ calls2 → NoDup calls1.*1 →
  ∀ m, insertAll m calls1 = insertAll m calls2.
Proof.
  unfold insertAll.
  induction 1 as [|x l1 l2 Hp IH|x y l|l1 l2 l3 Hp1 IH1 Hp2 IH2];
    intros Hnd m; simpl.
  - done.
  - apply IH. by apply NoDup_cons in Hnd as [_ ?].
  - f_equal. apply insert_insert_ne.
    rewrite !fmap_cons in Hnd. apply NoDup_cons in Hnd as [Hnotin _].
    intros Heq. apply Hnotin. rewrite Heq. by left.
  - rewrite IH1 by done. apply IH2. by rewrite <- Hp1.
Qed.

(** * The properties of the specification *)

(** C1.  The header fragments that [Render] puts into the document head are
    the values of the header map taken by strictly ascending id (Go's [<] on
    strings), whatever order the map iteration yields the ids in; two
    notebooks with equal header maps give the same fragment sequence, and
    [AddHeader] calls with distinct ids made in two different orders give
    equal header maps. *)
Theorem Headers_ascending_by_id (nb : Notebook) (keys : list string) :
  keys ≡ₚ headerKeys nb →
  (∃ ids, ids ≡ₚ headerKeys nb ∧ StronglySorted lexLess ids
     ∧ Headers keys nb = mapaccess (headers nb) <$> ids
     ∧ rendered keys nb =
       cat ([textHead] ++ titleChunks (Title nb)
            ++ (mapaccess (headers nb) <$> ids) ++ bodyChunks nb))
  ∧ (∀ nb' keys', headers nb' = headers nb → keys' ≡ₚ headerKeys nb' →
       Headers keys' nb' = Headers keys nb)
  ∧ (∀ calls1 calls2, NoDup calls1.*1 → calls1 ≡ₚ calls2 →
       ∃ nb1 nb2, AddHeaders nb calls1 = Returns nb1
                  ∧ AddHeaders nb calls2 = Returns nb2
                  ∧ headers nb1 = headers nb2).
Proof.
  intros Hk. split; [|split].
  - exists (slices_Sort keys). split; [|split; [|split]].
    + by rewrite slices_Sort_perm.
    + apply slices_Sort_ascending. rewrite Hk. apply headerKeys_NoDup.
    + apply Headers_headChunks.
    + apply rendered_cat.
  - intros nb' keys' Hh Hk'. rewrite !Headers_headChunks. unfold headChunks.
    rewrite Hh. f_equal. apply slices_Sort_unique.
    rewrite Hk, Hk'. unfold headerKeys. by rewrite Hh.
  - intros calls1 calls2 Hnd Hp. rewrite !AddHeaders_returns.
    destruct calls1 as [|c1 calls1].
    { apply Permutation_nil in Hp. subst calls2. by exists nb, nb. }
    destruct calls2 as [|c2 calls2].
    { symmetry in Hp. by apply Permutation_nil in Hp. }
    eexists _, _. split; [done|]. split; [done|].
    cbn [headers]. f_equal. by apply insertAll_perm.
Qed.

Lemma Headers_ascending_by_id_witness :
  Headers ["b-style"; "a-meta"] demo = ["<a/>"; "<b/>"]
  ∧ Headers ["a-meta"; "b-style"] demo = ["<a/>"; "<b/>"].
Proof.
  assert (["b-style"; "a-meta"] ≡ₚ headerKeys demo) as Hk
    by (vm_compute; apply perm_swap).
  destruct (Headers_ascending_by_id demo ["b-style"; "a-meta"] Hk)
    as (_ & Hsame & _).
  split; [by vm_compute|].
  rewrite (Hsame demo ["a-meta"; "b-style"]); [by vm_compute|done|].
  vm_compute. reflexivity.
Defined.

Lemma renderChunks_documentStart keys (nb : Notebook) :
  renderChunks keys nb =
  documentStart keys nb ++ (cells nb ≫= cellChunks)
  ++ consoleChunks (console nb).
Proof.
  unfold renderChunks, documentStart, bodyChunks.
  by rewrite <- !app_assoc.
Qed.

Lemma AddContents_fields (nb : Notebook) (calls : list (string * string)) :
  AddContents nb calls =
  {| Title := Title nb; Output := Output nb;
     cells := cells nb ++ (cellOfCall <$> calls);
     headers := headers nb; console := console nb |}.
Proof.
  unfold AddContents. revert nb.
  induction calls as [|call calls IH]; intros nb; simpl.
  - rewrite app_nil_r. by destruct nb.
  - rewrite IH. simpl. by rewrite <- app_assoc.
Qed.

Lemma bind_cellOfCall (calls : list (string * string)) :
  (cellOfCall <$> calls) ≫= cellChunks = concat (callBlock <$> calls).
Proof.
  induction calls as [|call calls IH]; [done|].
  rewrite !fmap_cons, bind_cons, IH. reflexivity.
Qed.

(** C2.  After [N] calls of [AddContent], the rendered document holds, after
    the blocks of the cells that the notebook already had, exactly [N] cell
    blocks: the i-th carries the title (escaped) and the content of the i-th
    call; the Console block follows them.  On a notebook that had no cell,
    the [N] blocks are all the cell blocks of the document. *)
Theorem AddContent_order_preserved
    (nb : Notebook) (calls : list (string * string)) (keys : list string) :
  let nb' := AddContents nb calls in
  let blocks := callBlock <$> calls in
  length blocks = length calls
  ∧ cells nb' = cells nb ++ (cellOfCall <$> calls)
  ∧ rendered keys nb' =
    cat (documentStart keys nb ++ (cells nb ≫= cellChunks)
         ++ concat blocks ++ consoleChunks (console nb))
  ∧ (cells nb = [] →
     rendered keys nb' =
     cat (documentStart keys nb ++ concat blocks
          ++ consoleChunks (console nb))).
Proof.
  intros nb' blocks. subst nb' blocks.
  split; [apply length_fmap|]. rewrite AddContents_fields.
  split; [done|].
  assert (rendered keys
            {| Title := Title nb; Output := Output nb;
               cells := cells nb ++ (cellOfCall <$> calls);
               headers := headers nb; console := console nb |}
          = cat (documentStart keys nb ++ (cells nb ≫= cellChunks)
                 ++ concat (callBlock <$> calls)
                 ++ consoleChunks (console nb))) as Hr.
  { rewrite rendered_cat, renderChunks_documentStart.
    cbn [cells console]. by rewrite bind_app, bind_cellOfCall, <- app_assoc. }
  split; [done|]. intros Hempty. by rewrite Hr, Hempty.
Qed.

Lemma AddContent_order_preserved_witness :
  rendered [] (AddContents zeroNotebook [("b", "<i>2</i>"); ("a", "<i>1</i>")])
  = cat (documentStart [] zeroNotebook
         ++ [ textCellOpen; "b"; textCellMiddle; "<i>2</i>"; textCellClose;
              textCellOpen; "a"; textCellMiddle; "<i>1</i>"; textCellClose ]
         ++ consoleChunks EmptyString).
Proof.
  apply (AddContent_order_preserved zeroNotebook
           [("b", "<i>2</i>"); ("a", "<i>1</i>")] []).
  reflexivity.
Defined.

(** C3.  Two renders of the same notebook into sinks in the same state
    write the same bytes and return the same error, whatever order the map
    iteration takes in each of them; the notebook after a render is the
    notebook before it (cells, header map and console included). *)
Theorem Render_deterministic {W : Type} `{Writer W}
    (nb : Notebook) (keys1 keys2 : list string) (w : W) :
  keys1 ≡ₚ headerKeys nb → keys2 ≡ₚ headerKeys nb →
  let first := Render keys1 nb w in
  let second := Render keys2 (fst first) w in
  snd second = snd first
  ∧ rendered keys2 (fst first) = rendered keys1 nb
  ∧ fst first = nb ∧ fst second = nb
  ∧ cells (fst first) = cells nb
  ∧ headers (fst first) = headers nb
  ∧ console (fst first) = console nb.
Proof.
  intros Hk1 Hk2 first second. subst first second.
  assert (renderChunks keys2 nb = renderChunks keys1 nb) as Heq.
  { apply renderChunks_order_irrelevant. by rewrite Hk1, Hk2. }
  rewrite !Render_writeAll. cbn [fst snd].
  by rewrite !rendered_cat, Heq.
Qed.

Lemma Render_deterministic_witness :
  snd (Render ["a-meta"; "b-style"] demo Buffer_zero)
  = snd (Render ["b-style"; "a-meta"] demo Buffer_zero).
Proof.
  assert (["b-style"; "a-meta"] ≡ₚ headerKeys demo) as Hk1
    by (vm_compute; apply perm_swap).
  assert (["a-meta"; "b-style"] ≡ₚ headerKeys demo) as Hk2
    by (vm_compute; reflexivity).
  apply (Render_deterministic demo _ _ Buffer_zero Hk1 Hk2).
Defined.

(** C5.  Two [AddHeader] calls with the same id leave the notebook as the
    second call alone would: the map holds the second value under the id,
    the id occurs once among the sorted ids, and the head of the rendered
    document holds one fragment for it, the second value. *)
Theorem AddHeader_overwrites (nb : Notebook) (id v1 v2 : string) :
  ∃ nb1 nb2,
    AddHeader nb id v1 = Returns nb1
    ∧ AddHeader nb1 id v2 = Returns nb2
    ∧ AddHeader nb id v2 = Returns nb2
    ∧ (∃ m, headers nb2 = Some m ∧ m !! id = Some v2)
    ∧ mapaccess (headers nb2) id = v2
    ∧ ∀ keys, keys ≡ₚ headerKeys nb2 →
        ∃ before after,
          slices_Sort keys = before ++ id :: after
          ∧ (id ∉ before) ∧ (id ∉ after)
          ∧ Headers keys nb2 =
            (mapaccess (headers nb2) <$> before) ++ v2
            :: (mapaccess (headers nb2) <$> after)
          ∧ rendered keys nb2 =
            cat ([textHead] ++ titleChunks (Title nb2)
                 ++ (mapaccess (headers nb2) <$> before) ++ [v2]
                 ++ (mapaccess (headers nb2) <$> after) ++ bodyChunks nb2).
Proof.
  set (m := <[id:=v2]> (default ∅ (headers nb))).
  exists {| Title := Title nb; Output := Output nb; cells := cells nb;
            headers := Some (<[id:=v1]> (default ∅ (headers nb)));
            console := console nb |},
         {| Title := Title nb; Output := Output nb; cells := cells nb;
            headers := Some m; console := console nb |}.
  split; [apply AddHeader_returns|]. split.
  { rewrite AddHeader_returns. do 3 f_equal.
    exact (insert_insert_eq _ _ _ _). }
  split; [apply AddHeader_returns|].
  split; [exists m; split; [done|apply lookup_insert_eq]|].
  assert (mapaccess (Some m) id = v2) as Hv.
  { unfold mapaccess, m. by rewrite lookup_insert_eq. }
  split; [done|]. intros keys Hk.
  assert (NoDup (slices_Sort keys)) as Hnd.
  { rewrite slices_Sort_perm, Hk. apply headerKeys_NoDup. }
  assert (id ∈ slices_Sort keys) as Hin.
  { rewrite slices_Sort_perm, Hk. unfold headerKeys. simpl.
    apply list_elem_of_fmap. exists (id, v2). split; [done|].
    apply elem_of_map_to_list. unfold m. apply lookup_insert_eq. }
  apply list_elem_of_split in Hin as (before & after & Hsplit).
  exists before, after. rewrite Hsplit in Hnd.
  apply NoDup_app in Hnd as (_ & Hnotin & Hnd2).
  apply NoDup_cons in Hnd2 as [Hafter _].
  split; [done|]. split; [|split; [done|]].
  { intros Hb. apply (Hnotin _ Hb). by left. }
  assert (headChunks keys
            {| Title := Title nb; Output := Output nb; cells := cells nb;
               headers := Some m; console := console nb |}
          = (mapaccess (Some m) <$> before) ++ v2
            :: (mapaccess (Some m) <$> after)) as Hh.
  { unfold headChunks. cbn [headers]. rewrite Hsplit, fmap_app, fmap_cons.
    by rewrite Hv. }
  split; [by rewrite Headers_headChunks|].
  rewrite rendered_cat. unfold renderChunks. rewrite Hh.
  cbn [Title]. by rewrite <- !app_assoc.
Qed.

Lemma AddHeader_overwrites_witness :
  ∃ nb2 before after,
    AddHeader demo "a-meta" "<new/>" = Returns nb2
    ∧ slices_Sort (headerKeys nb2) = before ++ "a-meta" :: after
    ∧ Headers (headerKeys nb2) nb2 =
      (mapaccess (headers nb2) <$> before) ++ "<new/>"
      :: (mapaccess (headers nb2) <$> after).
Proof.
  destruct (AddHeader_overwrites demo "a-meta" "<old/>" "<new/>")
    as (nb1 & nb2 & _ & _ & H3 & _ & _ & Hkeys).
  destruct (Hkeys (headerKeys nb2)) as (before & after & Hs & _ & _ & Hh & _);
    [reflexivity|].
  by exists nb2, before, after.
Defined.

(** ** Errors of [Render] *)

Section WriteFacts.
Context {W : Type} `{Writer W}.

Lemma writeAll_acceptsAll (chunks : list string) (w : W) :
  snd (writeAll chunks w) = None ↔ acceptsAll chunks w = true.
Proof.
  revert w. induction chunks as [|c chunks IH]; intros w; simpl; [done|].
  destruct (Write w c) as [w' [e|]]; simpl; [done|apply IH].
Qed.

Lemma writeAll_error (chunks : list string) (w : W) (e : error) :
  snd (writeAll chunks w) = Some e →
  ∃ done c rest w1 w2,
    chunks = done ++ c :: rest
    ∧ writeAll done w = (w1, None)
    ∧ Write w1 c = (w2, Some e).
Proof.
  revert w. induction chunks as [|c chunks IH]; intros w; simpl; [done|].
  destruct (Write w c) as [w' [e'|]] eqn:Hw; simpl.
  - intros [= ->]. by exists [], c, chunks, w, w'.
  - intros He. destruct (IH _ He) as (done & c' & rest & w1 & w2 & -> & Hd & Hc).
    exists (c :: done), c', rest, w1, w2. simpl. by rewrite Hw.
Qed.

Lemma acceptsAll_total (chunks : list string) (w : W) :
  (∀ w' c, snd (Write w' c) = None) → acceptsAll chunks w = true.
Proof.
  intros Hacc. revert w. induction chunks as [|c chunks IH]; intros w; [done|].
  simpl. specialize (Hacc w c). destruct (Write w c) as [w' [e|]]; [done|apply IH].
Qed.
End WriteFacts.

(** C7.  [Render] returns an error exactly when the sink refuses one of the
    writes, and the error is the one that this write returned; whatever the
    notebook holds, rendering into a sink that accepts every write
    succeeds. *)
Theorem Render_fails_only_on_write {W : Type} `{Writer W}
    (nb : Notebook) (keys : list string) (w : W) :
  (snd (snd (Render keys nb w)) = None
   ↔ acceptsAll (renderChunks keys nb) w = true)
  ∧ (∀ e, snd (snd (Render keys nb w)) = Some e →
       ∃ done c rest w1 w2,
         renderChunks keys nb = done ++ c :: rest
         ∧ writeAll done w = (w1, None)
         ∧ Write w1 c = (w2, Some e))
  ∧ ((∀ w' c, snd (Write w' c) = None) →
       snd (snd (Render keys nb w)) = None).
Proof.
  rewrite Render_writeAll. cbn [snd]. split; [|split].
  - apply writeAll_acceptsAll.
  - intros e. apply writeAll_error.
  - intros Hacc. by apply writeAll_acceptsAll, acceptsAll_total.
Qed.

Lemma Render_fails_only_on_write_witness :
  snd (snd (Render (headerKeys demo) demo Buffer_zero)) = None
  ∧ snd (snd (Render (headerKeys demo) demo {| room := 40; taken := EmptyString |}))
    = Some (sysError "no space left on device").
Proof.
  split; [|by vm_compute].
  apply (Render_fails_only_on_write demo (headerKeys demo) Buffer_zero).
  intros w' c. reflexivity.
Defined.

(** C8.  [New] gives a notebook without cells, with an empty console and
    with one header, [cellStyle] under the id "cell-style"; [Output] is the
    base name of [os.Args[0]] followed by ".html" and [Title] is
    [strings.Title] of that base name.  A later assignment to [Title] shows
    in the rendered document, and [Close] creates the file named by the
    [Output] assigned last. *)
Theorem New_defaults (strings_Title : string → string) (os_Args0 : string) :
  let nb := New strings_Title os_Args0 in
  cells nb = []
  ∧ console nb = EmptyString
  ∧ headers nb = Some {[ "cell-style" := cellStyle ]}
  ∧ headerKeys nb = ["cell-style"]
  ∧ Output nb = path_Base os_Args0 +:+ ".html"
  ∧ Title nb = strings_Title (path_Base os_Args0)
  ∧ (∀ t, rendered (headerKeys nb) (setTitle t nb) =
          cat ([textHead] ++ titleChunks t ++ [cellStyle] ++ [textBody]
               ++ headingChunks t ++ [textContainer]
               ++ consoleChunks EmptyString))
  ∧ (∀ o (os_Create : string → Buffer + error) File_Close keys,
       Close os_Create File_Close keys (setOutput o nb) =
       match os_Create o with
       | inr err =>
           (setOutput o nb,
            (None, Some (errorString "cannot create output file %q" o)))
       | inl f =>
           (setOutput o nb,
            (Some (fst (File_Close (f +:+ rendered keys (setOutput o nb)))),
             None))
       end).
Proof.
  intros nb. subst nb. unfold New.
  cbn [cells console headers Output Title].
  do 3 (split; [done|]).
  assert (headerKeys
            {| Title := strings_Title (path_Base os_Args0);
               Output := path_Base os_Args0 +:+ ".html"; cells := [];
               headers := Some {[ HeaderCellStyle := cellStyle ]};
               console := Buffer_zero |} = ["cell-style"]) as Hkeys.
  { unfold headerKeys. cbn [headers]. by rewrite map_to_list_singleton. }
  split; [done|]. do 2 (split; [done|]). split.
  - intros t. rewrite rendered_cat, Hkeys. reflexivity.
  - intros o os_Create File_Close keys. unfold Close. cbn [Output setOutput].
    destruct (os_Create o) as [f|err]; [|done].
    rewrite Render_writeAll, writeAll_Buffer.
    by rewrite rendered_cat.
Qed.

(** The test [ExampleNew_Simple] of the repository: the program is
    "notebook.test"; "Hello world" is printed and the default style is replaced
    by the empty fragment. *)
Example ExampleNew_Simple :
  let nb0 := New ascii_Title "/tmp/go-build/b001/notebook.test" in
  let nb1 := fst (Print (any := string) cat nb0 ["Hello world"]) in
  ∃ nb2, AddHeader nb1 HeaderCellStyle EmptyString = Returns nb2
  ∧ rendered (headerKeys nb2) nb2 = cat
    [ "<!DOCTYPE html>"; nl;
      "<html>"; nl;
      tab; "<head><title>Notebook.Test</title></head>"; nl;
      tab; "<body>"; nl;
      tab; tab; "<h1>Notebook.Test</h1>"; nl;
      tab; tab; "<div class="; dq; "cell-container"; dq; ">"; nl;
      tab; tab; tab; "<details open class="; dq; "cell"; dq; ">"; nl;
      tab; tab; tab; tab; "<summary>Console</summary>"; nl;
      tab; tab; tab; tab; "<pre>Hello world</pre>"; nl;
      tab; tab; tab; "</details>"; nl;
      tab; tab; "</div>"; nl;
      tab; "</body>"; nl;
      "</html>" ].
Proof. eexists. split; [reflexivity|]. by vm_compute. Qed.

(** C9.  The notebook title, in the [title] element and in the [h1]
    heading, and every cell title, in its [summary], are written through
    [escapeText], while the cell content is written as it was given.  Escaped
    text holds no byte that opens markup; the escaping works byte by byte and
    turns the special bytes into character references. *)
Theorem titles_escaped (nb : Notebook) (keys : list string) :
  rendered keys nb =
    cat ([textHead]
         ++ (if String.eqb (Title nb) EmptyString then []
             else ["<title>"; escapeText (Title nb); "</title>"])
         ++ headChunks keys nb ++ [textBody]
         ++ (if String.eqb (Title nb) EmptyString then []
             else ["<h1>"; escapeText (Title nb); "</h1>"])
         ++ [textContainer]
         ++ (cells nb ≫= fun c =>
               [ textCellOpen; escapeText (cell_Title c); textCellMiddle;
                 Content c; textCellClose ])
         ++ consoleChunks (console nb))
  ∧ (∀ t, noMarkup (escapeText t) = true)
  ∧ (∀ a b, escapeText (a +:+ b) = escapeText a +:+ escapeText b)
  ∧ escapeText "<" = "&lt;"
  ∧ escapeText ">" = "&gt;"
  ∧ escapeText "&" = "&amp;"
  ∧ escapeText "'" = "&#39;"
  ∧ escapeText dq = "&#34;"
  ∧ escapeText "plain text" = "plain text".
Proof.
  split; [apply rendered_cat|].
  split; [apply noMarkup_escapeText|].
  split; [apply escapeText_app|].
  repeat split; reflexivity.
Qed.

(** C4.  Text that reaches the console through [Print], [Printf] or
    [Println] stands escaped between the [pre] tags of the Console block:
    the document ends with the text before the [pre] tag, the escaped console
    text and the text from the closing [pre] tag on.  The content given to
    [AddContent] stands unchanged in the body of the last cell block. *)
Theorem console_escaped_content_verbatim {any : Type}
    (fmt_Sprint : list any → string)
    (fmt_Sprintf : string → list any → string)
    (fmt_Sprintln : list any → string)
    (nb : Notebook) (keys : list string)
    (format : string) (a : list any) (title content : string) :
  let upToConsole := cat (documentStart keys nb ++ (cells nb ≫= cellChunks)) in
  let consoleBlock text :=
    textConsoleOpen +:+ escapeText (console nb) +:+ escapeText text
    +:+ textTail in
  rendered keys (fst (Print fmt_Sprint nb a))
    = upToConsole +:+ consoleBlock (fmt_Sprint a)
  ∧ rendered keys (fst (Printf fmt_Sprintf nb format a))
    = upToConsole +:+ consoleBlock (fmt_Sprintf format a)
  ∧ rendered keys (fst (Println fmt_Sprintln nb a))
    = upToConsole +:+ consoleBlock (fmt_Sprintln a)
  ∧ (∃ before, textConsoleOpen = before +:+ "<pre>")
  ∧ (∃ after, textTail = "</pre>" +:+ after)
  ∧ (∀ text, noMarkup (escapeText text) = true)
  ∧ escapeText "<" = "&lt;"
  ∧ escapeText "&" = "&amp;"
  ∧ rendered keys (AddContent nb title content)
    = upToConsole
      +:+ textCellOpen +:+ escapeText title +:+ textCellMiddle
      +:+ content +:+ textCellClose
      +:+ cat (consoleChunks (console nb)).
Proof.
  intros upToConsole consoleBlock. subst upToConsole consoleBlock.
  assert (∀ text, rendered keys (fst (writeConsole nb text))
          = cat (documentStart keys nb ++ (cells nb ≫= cellChunks))
            +:+ textConsoleOpen +:+ escapeText (console nb)
            +:+ escapeText text +:+ textTail) as Hconsole.
  { intros text. rewrite rendered_cat, renderChunks_documentStart.
    unfold writeConsole, Buffer_Write, documentStart, headChunks.
    cbn [fst Title cells console headers].
    rewrite app_assoc, cat_app. f_equal.
    unfold consoleChunks. rewrite !cat_cons, escapeText_app.
    change (cat []) with EmptyString.
    by rewrite append_nil_r, append_assoc. }
  split; [apply Hconsole|]. split; [apply Hconsole|]. split; [apply Hconsole|].
  split.
  { by exists (cat [nl; tab; tab; tab; "<details open class="; dq; "cell"; dq; ">";
                    nl; tab; tab; tab; tab; "<summary>Console</summary>";
                    nl; tab; tab; tab; tab]). }
  split.
  { by exists (cat [nl; tab; tab; tab; "</details>";
                    nl; tab; tab; "</div>"; nl; tab; "</body>"; nl; "</html>"]). }
  split; [apply noMarkup_escapeText|]. do 2 (split; [reflexivity|]).
  rewrite rendered_cat, renderChunks_documentStart.
  unfold AddContent, documentStart, headChunks.
  cbn [Title cells console headers].
  rewrite bind_app.
  set (c := {| cell_content := fst (Buffer_WriteString (cell_content newCell) content);
               cell_Title := title |}).
  set (start := [textHead] ++ titleChunks (Title nb)
                ++ (mapaccess (headers nb) <$> slices_Sort keys)
                ++ [textBody] ++ headingChunks (Title nb) ++ [textContainer]).
  replace (start ++ ((cells nb ≫= cellChunks) ++ ([c] ≫= cellChunks))
           ++ consoleChunks (console nb))
    with ((start ++ (cells nb ≫= cellChunks))
          ++ cellChunks c ++ consoleChunks (console nb)).
  - rewrite cat_app. by f_equal.
  - rewrite <- !app_assoc. by do 2 f_equal.
Qed.

(** C10.  [AddHeader] returns on every notebook: it allocates the map when
    it is nil, where the bare map assignment would panic, and registers the
    fragment.  On the zero value [Notebook{}] the header map then holds the
    new id alone: the default stylesheet header is not there. *)
Theorem AddHeader_total (nb : Notebook) (id content : string) :
  (∃ nb', AddHeader nb id content = Returns nb'
          ∧ headers nb' = Some (<[id := content]> (default ∅ (headers nb)))
          ∧ mapaccess (headers nb') id = content
          ∧ Title nb' = Title nb ∧ Output nb' = Output nb
          ∧ cells nb' = cells nb ∧ console nb' = console nb)
  ∧ headers zeroNotebook = None
  ∧ mapassign (headers zeroNotebook) id content
    = Panics "assignment to entry in nil map"
  ∧ (∃ nb', AddHeader zeroNotebook id content = Returns nb'
            ∧ headers nb' = Some {[ id := content ]}
            ∧ headerKeys nb' = [id]).
Proof.
  split.
  - eexists. split; [apply AddHeader_returns|]. cbn [headers].
    split; [done|]. split; [|done].
    unfold mapaccess. by rewrite lookup_insert_eq.
  - do 2 (split; [done|]). eexists. split; [apply AddHeader_returns|].
    cbn. split; [done|].
    unfold headerKeys. cbn [headers].
    change (<[id:=content]> ∅) with ({[ id := content ]} : gmap string string).
    by rewrite map_to_list_singleton.
Qed.

(** ** [Close] *)

Section CloseFacts.
Context {F : Type} `{Writer F}.
Variable os_Create : string → F + error.
Variable File_Close : F → F * option error.

(** What [Close] does and returns, case by case; the error of the deferred
    [File.Close] never reaches the result. *)
Lemma Close_outcomes (keys : list string) (nb : Notebook) :
  Close os_Create File_Close keys nb =
  match os_Create (Output nb) with
  | inr err =>
      (nb, (None, Some (errorString "cannot create output file %q" (Output nb))))
  | inl f =>
      let '(f1, rerr) := writeAll (renderChunks keys nb) f in
      (nb, (Some (fst (File_Close f1)),
            match rerr with
            | Some err => Some (wrapError "cannot render notebook: %w" err)
            | None => None
            end))
  end.
Proof.
  unfold Close. destruct (os_Create (Output nb)) as [f|err]; [|done].
  rewrite Render_writeAll. by destruct (writeAll _ f) as [f1 rerr].
Qed.
End CloseFacts.

(** C6.  [Close] on the zero value [Notebook{}], whose [Output] is the empty
    path: [os.Create] fails, and the error that [Close] returns carries the
    path only; [errors.Unwrap] finds no cause in it.  When the write fails
    instead, the error of the sink is wrapped and [errors.Unwrap] returns
    it. *)
Theorem Close_drops_creation_error :
  let ENOENT := sysError "open : no such file or directory" in
  let ENOSPC := sysError "no space left on device" in
  let nothingCreated : string → Buffer + error := fun _ => inr ENOENT in
  let fullDisk : string → boundedSink + error :=
    fun _ => inl {| room := 0; taken := EmptyString |} in
  let created := snd (snd (Close nothingCreated (fun f => (f, None)) [] zeroNotebook)) in
  let written := snd (snd (Close fullDisk (fun f => (f, None)) [] zeroNotebook)) in
  created = Some (errorString "cannot create output file %q" EmptyString)
  ∧ created ≫= Unwrap = None
  ∧ written = Some (wrapError "cannot render notebook: %w" ENOSPC)
  ∧ written ≫= Unwrap = Some ENOSPC.
Proof. by vm_compute. Qed.

(** * Further properties of the code *)

(** ** The template *)

(** X1.  A notebook with an empty [Title] is rendered without a [title]
    element and without an [h1] heading: the header fragments follow the
    opening [head] tag at once, and the cell container follows the opening
    [body] tag. *)
Theorem empty_title_suppressed (nb : Notebook) (keys : list string) :
  Title nb = EmptyString →
  rendered keys nb =
  cat ([textHead] ++ headChunks keys nb ++ [textBody; textContainer]
       ++ (cells nb ≫= cellChunks) ++ consoleChunks (console nb)).
Proof.
  intros Ht. rewrite rendered_cat.
  unfold renderChunks, bodyChunks, titleChunks, headingChunks.
  by rewrite Ht.
Qed.

Lemma empty_title_suppressed_witness :
  rendered [] zeroNotebook =
  cat ([textHead] ++ [textBody; textContainer]
       ++ consoleChunks EmptyString).
Proof. apply (empty_title_suppressed zeroNotebook []). reflexivity. Defined.

(** ** The console *)

Lemma length_append (a b : string) :
  String.length (a +:+ b) = String.length a + String.length b.
Proof.
  induction a as [|c a IH]; [done|].
  rewrite append_cons. simpl. by rewrite IH.
Qed.

Section ConsoleFacts.
Context {any : Type}.
Variable fmt_Sprint : list any → string.
Variable fmt_Sprintf : string → list any → string.
Variable fmt_Sprintln : list any → string.

#[local] Abbreviation step := (consoleStep fmt_Sprint fmt_Sprintf fmt_Sprintln).
#[local] Abbreviation run := (consoleRun fmt_Sprint fmt_Sprintf fmt_Sprintln).
#[local] Abbreviation textOf := (formatted fmt_Sprint fmt_Sprintf fmt_Sprintln).

Lemma consoleStep_writeConsole (nb : Notebook) (c : consoleCall any) :
  step nb c = writeConsole nb (textOf c).
Proof. by destruct c. Qed.

Lemma consoleRun_fields (nb : Notebook) (calls : list (consoleCall any)) :
  run nb calls =
  {| Title := Title nb; Output := Output nb; cells := cells nb;
     headers := headers nb;
     console := console nb +:+ cat (textOf <$> calls) |}.
Proof.
  unfold consoleRun. revert nb.
  induction calls as [|c calls IH]; intros nb.
  - simpl. change (cat []) with EmptyString. rewrite append_nil_r.
    by destruct nb.
  - cbn [foldl]. rewrite IH, consoleStep_writeConsole.
    unfold writeConsole, Buffer_Write. cbn [fst Title Output cells headers console].
    by rewrite fmap_cons, cat_cons, append_assoc.
Qed.

(** X2.  Any run of [Print], [Printf] and [Println] calls leaves in the
    console the texts of the calls, in call order, after what the console
    held; cells, headers, [Title] and [Output] are untouched.  Each call
    returns the number of bytes that it appended and a nil error, and the
    Console block of the rendered document shows the whole text, escaped. *)
Theorem console_accumulates_in_call_order
    (nb : Notebook) (calls : list (consoleCall any)) (keys : list string) :
  let nb' := run nb calls in
  console nb' = console nb +:+ cat (textOf <$> calls)
  ∧ cells nb' = cells nb ∧ headers nb' = headers nb
  ∧ Title nb' = Title nb ∧ Output nb' = Output nb
  ∧ (∀ c, snd (step nb' c) = (String.length (textOf c), None)
          ∧ String.length (console (fst (step nb' c)))
            = String.length (console nb') + fst (snd (step nb' c)))
  ∧ rendered keys nb' =
    cat (documentStart keys nb ++ (cells nb ≫= cellChunks)
         ++ consoleChunks (console nb +:+ cat (textOf <$> calls))).
Proof.
  intros nb'. subst nb'. rewrite consoleRun_fields.
  cbn [console cells headers Title Output].
  do 5 (split; [done|]). split.
  - intros c. rewrite consoleStep_writeConsole.
    unfold writeConsole, Buffer_Write. cbn [fst snd console].
    split; [done|]. apply length_append.
  - by rewrite rendered_cat, renderChunks_documentStart.
Qed.
End ConsoleFacts.

(** ** The header map *)

Lemma insertAll_lookup (m : gmap string string)
    (calls : list (string * string)) (id : string) :
  insertAll m calls !! id =
  match lastWrite id calls with
  | Some v => Some v
  | None => m !! id
  end.
Proof.
  unfold insertAll. revert m.
  induction calls as [|[k v] calls IH]; intros m; [done|].
  cbn [foldl lastWrite]. rewrite IH. cbn [fst snd].
  destruct (lastWrite id calls) as [v'|]; [done|].
  destruct (String.eqb_spec k id) as [->|Hne].
  - by rewrite lookup_insert_eq.
  - by rewrite lookup_insert_ne.
Qed.

(** X3.  After any run of [AddHeader] calls, the fragment read under an id
    is the content of the last call made for this id, or the fragment that
    the notebook held when the run has no call for it; the run never panics
    and touches nothing but the header map. *)
Theorem AddHeaders_last_write_wins
    (nb : Notebook) (calls : list (string * string)) (id : string) :
  ∃ nb', AddHeaders nb calls = Returns nb'
    ∧ mapaccess (headers nb') id
      = default (mapaccess (headers nb) id) (lastWrite id calls)
    ∧ Title nb' = Title nb ∧ Output nb' = Output nb
    ∧ cells nb' = cells nb ∧ console nb' = console nb.
Proof.
  rewrite AddHeaders_returns. destruct calls as [|call calls].
  { by exists nb. }
  eexists. split; [done|]. cbn [headers Title Output cells console].
  split; [|done]. unfold mapaccess at 1. rewrite insertAll_lookup.
  destruct (lastWrite id (call :: calls)) as [v|]; [done|].
  unfold mapaccess. by destruct (headers nb).
Qed.

(** X4.  [AddHeader] changes the fragment of no other id, and the number of
    headers grows by one exactly when the id is new. *)
Theorem AddHeader_frame (nb : Notebook) (id content id' : string) :
  id' ≠ id →
  ∃ nb', AddHeader nb id content = Returns nb'
    ∧ mapaccess (headers nb') id' = mapaccess (headers nb) id'
    ∧ (id' ∈ headerKeys nb' ↔ id' ∈ headerKeys nb)
    ∧ id ∈ headerKeys nb'
    ∧ length (headerKeys nb') =
      if bool_decide (id ∈ headerKeys nb) then length (headerKeys nb)
      else S (length (headerKeys nb)).
Proof.
  intros Hne. rewrite AddHeader_returns. eexists. split; [done|].
  unfold headerKeys, mapaccess. cbn [headers].
  set (m := default ∅ (headers nb)).
  assert (∀ k, k ∈ (map_to_list m).*1 ↔ is_Some (m !! k)) as Hdom.
  { intros k. rewrite list_elem_of_fmap. split.
    - intros ([k' v] & -> & Hin). apply elem_of_map_to_list in Hin. by exists v.
    - intros [v Hv]. exists (k, v). split; [done|]. by apply elem_of_map_to_list. }
  assert (∀ k, k ∈ (map_to_list (<[id:=content]> m)).*1
               ↔ is_Some (<[id:=content]> m !! k)) as Hdom'.
  { intros k. rewrite list_elem_of_fmap. split.
    - intros ([k' v] & -> & Hin). apply elem_of_map_to_list in Hin. by exists v.
    - intros [v Hv]. exists (k, v). split; [done|]. by apply elem_of_map_to_list. }
  assert (match headers nb with
          | Some m0 => (map_to_list m0).*1
          | None => []
          end = (map_to_list m).*1) as Hkeys.
  { unfold m. destruct (headers nb); [done|]. cbn. by rewrite map_to_list_empty. }
  assert (default EmptyString (m !! id') =
          match headers nb with
          | Some m' => default EmptyString (m' !! id')
          | None => EmptyString
          end) as Hread.
  { unfold m. by destruct (headers nb). }
  rewrite Hkeys, <- Hread. split; [by rewrite lookup_insert_ne|].
  split; [by rewrite Hdom, Hdom', lookup_insert_ne|].
  split; [rewrite Hdom', lookup_insert_eq; by eexists|].
  rewrite !length_fmap, !length_map_to_list, map_size_insert.
  case_bool_decide as Hin.
  - apply Hdom in Hin as [v Hv]. by rewrite Hv.
  - destruct (m !! id) as [v|] eqn:Hv; [|done].
    exfalso. apply Hin, Hdom. by exists v.
Qed.

Lemma AddHeader_frame_witness :
  ∃ nb', AddHeader demo "c-new" "<c/>" = Returns nb'
    ∧ mapaccess (headers nb') "a-meta" = "<a/>"
    ∧ length (headerKeys nb') = 3.
Proof.
  destruct (AddHeader_frame demo "c-new" "<c/>" "a-meta") as (nb' & Hr & Hv & _ & _ & Hl);
    [done|].
  exists nb'. split; [done|]. split; [by rewrite Hv|].
  rewrite Hl. by vm_compute.
Defined.

Lemma fmap_ext_elem_of {A B} (f g : A → B) (l : list A) :
  (∀ x, x ∈ l → f x = g x) → f <$> l = g <$> l.
Proof.
  induction l as [|x l IH]; intros Hfg; [done|].
  rewrite !fmap_cons, Hfg, IH; [done| |by left].
  intros y Hy. apply Hfg. by right.
Qed.

(** The sorted ids after [AddHeader]: the id stands once among them, and the
    fragments of the ids around it are those that the notebook held. *)
Lemma headChunks_AddHeader_split (nb : Notebook) (id v : string)
    (keys : list string) :
  let nb' := {| Title := Title nb; Output := Output nb; cells := cells nb;
                headers := Some (<[id := v]> (default ∅ (headers nb)));
                console := console nb |} in
  keys ≡ₚ headerKeys nb' →
  ∃ before after,
    slices_Sort keys = before ++ id :: after
    ∧ (id ∉ before) ∧ (id ∉ after)
    ∧ headChunks keys nb' =
      (mapaccess (headers nb) <$> before) ++ v
      :: (mapaccess (headers nb) <$> after).
Proof.
  intros nb' Hk. set (m := <[id:=v]> (default ∅ (headers nb))) in *.
  assert (NoDup (slices_Sort keys)) as Hnd.
  { rewrite slices_Sort_perm, Hk. apply headerKeys_NoDup. }
  assert (id ∈ slices_Sort keys) as Hin.
  { rewrite slices_Sort_perm, Hk. unfold headerKeys, nb'. cbn [headers].
    apply list_elem_of_fmap. exists (id, v). split; [done|].
    apply elem_of_map_to_list. unfold m. apply lookup_insert_eq. }
  apply list_elem_of_split in Hin as (before & after & Hsplit).
  exists before, after. rewrite Hsplit in Hnd.
  apply NoDup_app in Hnd as (_ & Hnotin & Hnd2).
  apply NoDup_cons in Hnd2 as [Hafter _].
  assert (id ∉ before) as Hbefore.
  { intros Hb. apply (Hnotin _ Hb). by left. }
  do 3 (split; [done|]).
  assert (∀ k, k ≠ id → mapaccess (Some m) k = mapaccess (headers nb) k) as Hother.
  { intros k Hne. unfold mapaccess, m. rewrite lookup_insert_ne by done.
    by destruct (headers nb). }
  unfold headChunks, nb'. cbn [headers]. rewrite Hsplit, fmap_app, fmap_cons.
  f_equal; [|f_equal].
  - apply fmap_ext_elem_of. intros k Hkin. apply Hother. by intros ->.
  - unfold mapaccess, m. by rewrite lookup_insert_eq.
  - apply fmap_ext_elem_of. intros k Hkin. apply Hother. by intros ->.
Qed.

(** X5.  A header set to the empty fragment contributes no byte to the
    document: the head holds the fragments that the notebook held for the
    other ids, in ascending order of id, and the rest of the document is
    unchanged. *)
Theorem empty_fragment_contributes_nothing
    (nb : Notebook) (id : string) (keys : list string) :
  ∃ nb', AddHeader nb id EmptyString = Returns nb'
    ∧ (keys ≡ₚ headerKeys nb' →
       ∃ before after,
         slices_Sort keys = before ++ id :: after
         ∧ (id ∉ before) ∧ (id ∉ after)
         ∧ rendered keys nb' =
           cat ([textHead] ++ titleChunks (Title nb)
                ++ (mapaccess (headers nb) <$> before)
                ++ (mapaccess (headers nb) <$> after) ++ bodyChunks nb)).
Proof.
  rewrite AddHeader_returns. eexists. split; [done|]. intros Hk.
  destruct (headChunks_AddHeader_split nb id EmptyString keys Hk)
    as (before & after & Hs & Hb & Ha & Hh).
  exists before, after. do 3 (split; [done|]).
  rewrite rendered_cat. unfold renderChunks. rewrite Hh. cbn [Title].
  rewrite !cat_app, cat_cons, !append_assoc. reflexivity.
Qed.

Lemma empty_fragment_contributes_nothing_witness :
  ∃ nb', AddHeader demo "a-meta" EmptyString = Returns nb'
    ∧ rendered ["b-style"; "a-meta"] nb' =
      cat ([textHead] ++ titleChunks (Title demo) ++ ["<b/>"] ++ bodyChunks demo).
Proof.
  destruct (empty_fragment_contributes_nothing demo "a-meta" ["b-style"; "a-meta"])
    as (nb' & Hr & Hrender).
  exists nb'. split; [done|].
  rewrite AddHeader_returns in Hr. injection Hr as <-.
  destruct Hrender as (before & after & Hs & _ & _ & _);
    [vm_compute; apply perm_swap|].
  by vm_compute.
Defined.

(** X6.  On a notebook made by [New], setting the header "cell-style" to
    the empty fragment removes the default stylesheet from the document:
    before the call the head holds [cellStyle] after the title, after the
    call the title alone; the body is the same. *)
Theorem default_style_disabled
    (strings_Title : string → string) (os_Args0 : string) :
  let nb := New strings_Title os_Args0 in
  ∃ nb', AddHeader nb HeaderCellStyle EmptyString = Returns nb'
    ∧ headerKeys nb = [HeaderCellStyle]
    ∧ headerKeys nb' = [HeaderCellStyle]
    ∧ rendered [HeaderCellStyle] nb =
      cat ([textHead] ++ titleChunks (Title nb) ++ [cellStyle] ++ bodyChunks nb)
    ∧ rendered [HeaderCellStyle] nb' =
      cat ([textHead] ++ titleChunks (Title nb) ++ bodyChunks nb).
Proof.
  intros nb. rewrite AddHeader_returns. eexists. split; [done|].
  unfold headerKeys, nb, New. cbn [headers from_option].
  unfold Datatypes.id. rewrite insert_singleton_eq, !map_to_list_singleton.
  do 2 (split; [done|]). rewrite !rendered_cat.
  unfold renderChunks, headChunks.
  change (slices_Sort [HeaderCellStyle]) with [HeaderCellStyle].
  cbn [headers fmap list_fmap mapaccess]. rewrite !lookup_singleton_eq.
  split; [reflexivity|]. rewrite !cat_app. reflexivity.
Qed.

(** ** Interleaved operations *)

Lemma mutateAll_fields (nb : Notebook) (ms : list mutation) :
  mutateAll nb ms =
  Returns {| Title := Title nb; Output := Output nb;
             cells := cells nb ++ (cellOfCall <$> contentCalls ms);
             headers :=
               match headerCalls ms with
               | [] => headers nb
               | calls => Some (insertAll (default ∅ (headers nb)) calls)
               end;
             console := console nb +:+ cat (consoleTexts ms) |}.
Proof.
  revert nb. induction ms as [|m ms IH]; intros nb.
  - simpl. change (cat []) with EmptyString.
    rewrite app_nil_r, append_nil_r. by destruct nb.
  - destruct m as [title content|id content|text]; cbn [mutateAll mutate].
    + rewrite IH. cbn [contentCalls headerCalls consoleTexts].
      unfold AddContent.
      cbn [Title Output cells headers console cell_content cell_Title newCell].
      by rewrite fmap_cons, <- app_assoc.
    + rewrite AddHeader_returns, IH. cbn [contentCalls headerCalls consoleTexts].
      cbn [Title Output cells headers console]. do 2 f_equal.
      by destruct (headerCalls ms).
    + rewrite IH. cbn [contentCalls headerCalls consoleTexts].
      unfold writeConsole, Buffer_Write.
      cbn [fst Title Output cells headers console].
      by rewrite cat_cons, append_assoc.
Qed.

(** X7.  A run of [AddContent], [AddHeader] and console calls, interleaved
    in any way, never panics and leaves the cells of the [AddContent] calls
    in their order after the cells that were there, the console texts in
    their order after the console that was there, and the header map given
    by the [AddHeader] calls in their order.  Two runs that agree on the
    order within each kind give the same notebook, whatever the order across
    kinds. *)
Theorem interleaving_irrelevant (nb : Notebook) (ms1 ms2 : list mutation) :
  contentCalls ms1 = contentCalls ms2 →
  headerCalls ms1 = headerCalls ms2 →
  consoleTexts ms1 = consoleTexts ms2 →
  ∃ nb', mutateAll nb ms1 = Returns nb'
    ∧ mutateAll nb ms2 = Returns nb'
    ∧ cells nb' = cells nb ++ (cellOfCall <$> contentCalls ms1)
    ∧ console nb' = console nb +:+ cat (consoleTexts ms1)
    ∧ (∀ id, mapaccess (headers nb') id
             = default (mapaccess (headers nb) id)
                 (lastWrite id (headerCalls ms1)))
    ∧ Title nb' = Title nb ∧ Output nb' = Output nb.
Proof.
  intros Hc Hh Ht. rewrite !mutateAll_fields, <- Hc, <- Hh, <- Ht.
  eexists. split; [done|]. split; [done|].
  cbn [cells console headers Title Output]. do 2 (split; [done|]).
  split; [|done]. intros id.
  destruct (headerCalls ms1) as [|call calls] eqn:Hcalls; [done|].
  unfold mapaccess at 1. rewrite insertAll_lookup.
  destruct (lastWrite id (call :: calls)) as [v|]; [done|].
  unfold mapaccess. by destruct (headers nb).
Qed.

Lemma interleaving_irrelevant_witness :
  mutateAll demo [DoWrite "a"; DoAddContent "t" "<p/>"; DoAddHeader "k" "<k/>"; DoWrite "b"]
  = mutateAll demo [DoAddHeader "k" "<k/>"; DoWrite "a"; DoWrite "b"; DoAddContent "t" "<p/>"].
Proof.
  destruct (interleaving_irrelevant demo
              [DoWrite "a"; DoAddContent "t" "<p/>"; DoAddHeader "k" "<k/>"; DoWrite "b"]
              [DoAddHeader "k" "<k/>"; DoWrite "a"; DoWrite "b"; DoAddContent "t" "<p/>"])
    as (nb' & H1 & H2 & _); [reflexivity..|].
  by rewrite H1, H2.
Defined.

(** ** [Render] and its sink *)

Lemma writeAll_stops {W : Type} `{Writer W}
    (chunks : list string) (w w' : W) (e : error) :
  writeAll chunks w = (w', Some e) →
  ∃ done c rest w1,
    chunks = done ++ c :: rest
    ∧ writeAll done w = (w1, None)
    ∧ Write w1 c = (w', Some e).
Proof.
  revert w. induction chunks as [|c chunks IH]; intros w; simpl; [done|].
  destruct (Write w c) as [w0 [e0|]] eqn:Hw; simpl.
  - intros [= -> ->]. by exists [], c, chunks, w.
  - intros He. destruct (IH _ He) as (done & c' & rest & w1 & -> & Hd & Hc).
    exists (c :: done), c', rest, w1. simpl. by rewrite Hw.
Qed.

(** X8.  When [Render] returns an error, the sink is left in the state in
    which the refused write left it: the chunks before the refused one were
    written in order, each accepted, and nothing was written after it. *)
Theorem Render_stops_at_first_refusal {W : Type} `{Writer W}
    (nb : Notebook) (keys : list string) (w w' : W) (e : error) :
  snd (Render keys nb w) = (w', Some e) →
  ∃ done c rest w1,
    renderChunks keys nb = done ++ c :: rest
    ∧ writeAll done w = (w1, None)
    ∧ acceptsAll done w = true
    ∧ Write w1 c = (w', Some e)
    ∧ acceptsAll (done ++ [c]) w = false.
Proof.
  rewrite Render_writeAll. cbn [snd]. intros Hr.
  destruct (writeAll_stops _ _ _ _ Hr) as (done & c & rest & w1 & Hs & Hd & Hc).
  exists done, c, rest, w1. do 2 (split; [done|]).
  assert (acceptsAll done w = true) as Hacc.
  { apply writeAll_acceptsAll. by rewrite Hd. }
  do 2 (split; [done|]).
  destruct (acceptsAll (done ++ [c]) w) eqn:Hall; [|done].
  apply writeAll_acceptsAll in Hall.
  rewrite writeAll_app, Hd in Hall. simpl in Hall.
  by rewrite Hc in Hall.
Qed.

Lemma Render_stops_at_first_refusal_witness :
  ∃ done c rest,
    renderChunks (headerKeys demo) demo = done ++ c :: rest
    ∧ acceptsAll done {| room := 40; taken := EmptyString |} = true.
Proof.
  destruct (Render_stops_at_first_refusal demo (headerKeys demo)
              {| room := 40; taken := EmptyString |}
              {| room := 3; taken := cat [textHead; "<title>"] |}
              (sysError "no space left on device"))
    as (done & c & rest & w1 & Hs & _ & Hacc & _); [by vm_compute|].
  by exists done, c, rest.
Defined.

(** X9.  Rendering into a [bytes.Buffer] never fails and appends the
    document after the bytes that the buffer holds; a second render into the
    same buffer appends a second copy. *)
Theorem Render_appends_to_Buffer
    (nb : Notebook) (keys : list string) (b : Buffer) :
  Render keys nb b = (nb, (b +:+ rendered keys nb, None))
  ∧ snd (Render keys nb (fst (snd (Render keys nb b))))
    = (b +:+ rendered keys nb +:+ rendered keys nb, None).
Proof.
  rewrite rendered_cat, !Render_writeAll. cbn [fst snd].
  rewrite !writeAll_Buffer. cbn [fst snd]. rewrite ?writeAll_Buffer.
  split; [done|]. by rewrite append_assoc.
Qed.

(** ** [Close] *)

Section CloseProperties.
Context {F : Type} `{Writer F}.
Variable os_Create : string → F + error.

(** X10.  [Close] returns nil exactly when [os.Create] gives a file and the
    file accepts every write of the rendering; it then leaves the file as the
    deferred [File.Close] left it, and never changes the notebook. *)
Theorem Close_succeeds_iff (File_Close : F → F * option error)
    (keys : list string) (nb : Notebook) :
  (snd (snd (Close os_Create File_Close keys nb)) = None
   ↔ ∃ f, os_Create (Output nb) = inl f
          ∧ acceptsAll (renderChunks keys nb) f = true)
  ∧ (∀ f, os_Create (Output nb) = inl f →
          fst (snd (Close os_Create File_Close keys nb))
          = Some (fst (File_Close (fst (writeAll (renderChunks keys nb) f)))))
  ∧ (∀ err, os_Create (Output nb) = inr err →
            fst (snd (Close os_Create File_Close keys nb)) = None)
  ∧ fst (Close os_Create File_Close keys nb) = nb.
Proof.
  rewrite Close_outcomes.
  destruct (os_Create (Output nb)) as [f|err] eqn:Hc.
  - destruct (writeAll (renderChunks keys nb) f) as [f1 rerr] eqn:Hw.
    cbn [fst snd]. split; [|by split; [intros ? [= <-]; rewrite Hw|]].
    split.
    + intros Hnil. exists f. split; [done|]. apply writeAll_acceptsAll.
      rewrite Hw. by destruct rerr.
    + intros (f' & [= <-] & Hacc). apply writeAll_acceptsAll in Hacc.
      rewrite Hw in Hacc. simpl in Hacc. by rewrite Hacc.
  - cbn [fst snd]. split; [|done]. split; [done|]. by intros (f & ? & _).
Qed.

(** X11.  When a write of the rendering is refused, [Close] returns an
    error that wraps the error of that write ([errors.Unwrap] returns it),
    and the file has been closed all the same. *)
Theorem Close_wraps_write_error (File_Close : F → F * option error)
    (keys : list string) (nb : Notebook) (f f1 : F) (e : error) :
  os_Create (Output nb) = inl f →
  writeAll (renderChunks keys nb) f = (f1, Some e) →
  Close os_Create File_Close keys nb
  = (nb, (Some (fst (File_Close f1)),
          Some (wrapError "cannot render notebook: %w" e)))
  ∧ snd (snd (Close os_Create File_Close keys nb)) ≫= Unwrap = Some e.
Proof.
  intros Hc Hw. rewrite Close_outcomes, Hc, Hw. by split.
Qed.

(** X12.  The error of the deferred [File.Close] never reaches the caller:
    the error that [Close] returns is the same whatever the closing of the
    file returns. *)
Theorem Close_ignores_close_error (File_Close1 File_Close2 : F → F * option error)
    (keys : list string) (nb : Notebook) :
  snd (snd (Close os_Create File_Close1 keys nb))
  = snd (snd (Close os_Create File_Close2 keys nb)).
Proof.
  rewrite !Close_outcomes. destruct (os_Create (Output nb)) as [f|err]; [|done].
  by destruct (writeAll (renderChunks keys nb) f) as [f1 rerr].
Qed.
End CloseProperties.

Lemma Close_wraps_write_error_witness :
  snd (snd (Close (fun _ => inl {| room := 0; taken := EmptyString |})
              (fun f => (f, None)) [] zeroNotebook)) ≫= Unwrap
  = Some (sysError "no space left on device").
Proof.
  apply (Close_wraps_write_error
           (fun _ => inl {| room := 0; taken := EmptyString |})
           (fun f => (f, None)) [] zeroNotebook
           {| room := 0; taken := EmptyString |}
           {| room := 0; taken := EmptyString |}
           (sysError "no space left on device"));
    reflexivity.
Defined.

Lemma Close_succeeds_iff_witness :
  snd (snd (Close (fun _ : string => inl Buffer_zero : Buffer + error)
              (fun f => (f, Some (sysError "close failed")))
              (headerKeys demo) demo)) = None.
Proof.
  apply (Close_succeeds_iff (fun _ : string => inl Buffer_zero : Buffer + error)
           (fun f => (f, Some (sysError "close failed")))
           (headerKeys demo) demo).
  exists Buffer_zero. split; [reflexivity|]. by vm_compute.
Defined.

(** ** [New] *)






(** ** Text that needs no escaping *)

Lemma replacement_length (r : ascii) :
  match htmlReplacementTable r with
  | EmptyString => True
  | repl => 2 ≤ String.length repl
  end.
Proof. destruct r as [[] [] [] [] [] [] [] []]; simpl; (done || lia). Qed.

Lemma escapeText_length (s : string) :
  String.length s ≤ String.length (escapeText s)
  ∧ (plainText s = false → String.length s < String.length (escapeText s)).
Proof.
  unfold escapeText. induction s as [|r s [IH1 IH2]]; [done|].
  cbn [htmlReplacer plainText]. pose proof (replacement_length r) as Hr.
  destruct (htmlReplacementTable r) as [|c repl] eqn:Ht.
  - simpl. split; [lia|]. intros Hp. specialize (IH2 Hp). lia.
  - rewrite length_append. simpl in *. split; [lia|]. intros _. lia.
Qed.

Lemma escapeText_plain (s : string) :
  plainText s = true → escapeText s = s.
Proof.
  unfold escapeText. induction s as [|r s IH]; [done|].
  cbn [htmlReplacer plainText].
  destruct (htmlReplacementTable r); [|done]. intros Hp. by rewrite IH.
Qed.

(** X14.  A title or a console text is rendered byte for byte as it is
    exactly when it holds none of the bytes that the escaper replaces (NUL,
    the two quotes, the ampersand, the plus sign and the two angle brackets);
    any other text is rendered longer than it is.  With such a title and
    console, the document holds them unchanged. *)
Theorem plain_text_rendered_verbatim (nb : Notebook) (keys : list string) :
  (∀ s, escapeText s = s ↔ plainText s = true)
  ∧ (∀ s, String.length s ≤ String.length (escapeText s))
  ∧ (plainText (Title nb) = true → plainText (console nb) = true →
     rendered keys nb =
     cat ([textHead]
          ++ (if String.eqb (Title nb) EmptyString then []
              else ["<title>"; Title nb; "</title>"])
          ++ headChunks keys nb ++ [textBody]
          ++ (if String.eqb (Title nb) EmptyString then []
              else ["<h1>"; Title nb; "</h1>"])
          ++ [textContainer] ++ (cells nb ≫= cellChunks)
          ++ [textConsoleOpen; console nb; textTail])).
Proof.
  split; [|split].
  - intros s. split; [|apply escapeText_plain].
    intros Heq. destruct (plainText s) eqn:Hp; [done|].
    destruct (escapeText_length s) as [_ Hlt]. specialize (Hlt Hp).
    rewrite Heq in Hlt. lia.
  - intros s. apply escapeText_length.
  - intros Ht Hc. rewrite rendered_cat.
    unfold renderChunks, bodyChunks, titleChunks, headingChunks, consoleChunks.
    by rewrite !escapeText_plain.
Qed.

Lemma plain_text_rendered_verbatim_witness :
  rendered [] (fst (writeConsole zeroNotebook "Hello world")) =
  cat ([textHead; textBody; textContainer]
       ++ [textConsoleOpen; "Hello world"; textTail]).
Proof.
  apply (plain_text_rendered_verbatim
           (fst (writeConsole zeroNotebook "Hello world")) []);
    reflexivity.
Defined.
